(** * Option-ticker decoding and holding classification

    A shallow embedding of [parse_option_ticker] and [classify_holding]
    from [ETF_Pulls/process_holdings.py], together with the slice of the
    Python runtime they call: [re.search] for the one pattern used,
    [int], the [int / float] division, [datetime.strptime] for the
    format ['%y%m%d'] and [strftime] for ['%Y-%m-%d'].

    Strings are lists of 8-bit characters, read as the code points below
    256 of a Python [str]; on those, the class [\d] is exactly [0-9].
    Floats are IEEE binary64 values ([spec_float] at precision 53).
    Exceptions are an explicit [result] type. *)

From Stdlib Require Import ZArith List String Ascii Bool Lia.
From Stdlib Require Import SpecFloat.
From Stdlib Require Import Permutation.
Import ListNotations.

Local Open Scope char_scope.
Local Open Scope Z_scope.

(** ** The Python runtime *)

Module Py.

Definition str : Type := list ascii.

Definition lit (s : string) : str := list_ascii_of_string s.

Inductive exn : Type :=
| ValueError
| OverflowError
| ZeroDivisionError.

Inductive result (A : Type) : Type :=
| Return (a : A)
| Raise (e : exn).

Arguments Return {A} a.
Arguments Raise {A} e.

Definition bind {A B : Type} (c : result A) (k : A -> result B) : result B :=
  match c with
  | Return a => k a
  | Raise e => Raise e
  end.

(** [try: body / except ValueError: handler]: only [ValueError] is
    caught, any other exception goes on to the caller. *)
Definition try_except_ValueError {A : Type} (body : result A) (handler : A)
  : result A :=
  match body with
  | Raise ValueError => Return handler
  | r => r
  end.

(** *** Characters *)

Definition code (c : ascii) : Z := Z.of_N (N_of_ascii c).

Definition in_range (lo hi c : ascii) : bool :=
  (code lo <=? code c) && (code c <=? code hi).

(** [\d] and [str.isdecimal] on code points below 256. *)
Definition is_digit (c : ascii) : bool := in_range "0" "9" c.

Definition digit_value (c : ascii) : Z := code c - 48.

(** [str.isspace] on code points below 256. *)
Definition is_space (c : ascii) : bool :=
  let n := code c in
  ((9 <=? n) && (n <=? 13)) || ((28 <=? n) && (n <=? 32))
  || (n =? 133) || (n =? 160).

Definition eqc (a b : ascii) : bool := Ascii.eqb a b.

(** *** [str.strip], [str.replace] with a one-character pattern *)

Fixpoint lstrip (s : str) : str :=
  match s with
  | c :: r => if is_space c then lstrip r else s
  | [] => []
  end.

Definition rstrip (s : str) : str := rev (lstrip (rev s)).

Definition strip (s : str) : str := rstrip (lstrip s).

(** [s.replace(c, '')] *)
Fixpoint remove_char (c : ascii) (s : str) : str :=
  match s with
  | [] => []
  | x :: r => if eqc x c then remove_char c r else x :: remove_char c r
  end.

(** *** [int(s)] on a string

    The literal is stripped of surrounding white space, may carry a
    sign, and is a run of decimal digits in which single underscores may
    separate digits.  [int_literal] returns the value and the number of
    digit characters.  A literal of more than [max_str_digits] digits
    raises [ValueError] ([sys.get_int_max_str_digits()], 4300 unless
    configured; 0 switches the check off, as do interpreters that
    predate it; the check only looks at literals of more than 640
    digits). *)

Fixpoint int_literal (acc : Z) (ndigits : nat) (after_digit : bool) (s : str)
  : option (Z * nat) :=
  match s with
  | [] => if after_digit then Some (acc, ndigits) else None
  | c :: r =>
      if is_digit c then
        int_literal (10 * acc + digit_value c) (S ndigits) true r
      else if eqc c "_" && after_digit then
        int_literal acc ndigits false r
      else None
  end.

Section Int.

Variable max_str_digits : nat.

Definition exceeds_limit (ndigits : nat) : bool :=
  (640 <? ndigits)%nat && (0 <? max_str_digits)%nat
  && (max_str_digits <? ndigits)%nat.

Definition int (s : str) : result Z :=
  let s1 := strip s in
  let '(neg, body) :=
    match s1 with
    | "-" :: r => (true, r)
    | "+" :: r => (false, r)
    | _ => (false, s1)
    end in
  match int_literal 0 0 false body with
  | None => Raise ValueError
  | Some (v, nd) =>
      if exceeds_limit nd then Raise ValueError
      else Return (if neg then - v else v)
  end.

End Int.

(** *** Floats: [float(n)] for an [int] and [n / y] for a float [y] *)

Definition prec : Z := 53.
Definition emax : Z := 1024.

Definition float : Type := spec_float.

(** Conversion rounds to nearest, ties to even, and raises
    [OverflowError] ("int too large to convert to float") where the
    rounded value is out of range. *)
Definition float_of_int (n : Z) : result float :=
  match binary_normalize prec emax n 0 false with
  | S754_infinity _ => Raise OverflowError
  | f => Return f
  end.

Definition is_zero (f : float) : bool :=
  match f with
  | S754_zero _ => true
  | _ => false
  end.

(** [n / y] with [n] an [int] and [y] a [float]: [float.__rtruediv__]
    converts [n], then divides. *)
Definition int_truediv_float (n : Z) (y : float) : result float :=
  bind (float_of_int n) (fun x =>
  if is_zero y then Raise ZeroDivisionError
  else Return (SFdiv prec emax x y)).

(** The literal [1000.0] *)
Definition float_1000 : float := S754_finite false 8796093022208000 (-43).

(** *** [datetime]: [strptime(s, '%y%m%d')] and [strftime('%Y-%m-%d')] *)

Record datetime : Type := mkdatetime { year : Z; month : Z; day : Z }.

Definition is_leap (y : Z) : bool :=
  (y mod 4 =? 0) && (negb (y mod 100 =? 0) || (y mod 400 =? 0)).

Definition days_in_month (y m : Z) : Z :=
  if m =? 2 then (if is_leap y then 29 else 28)
  else if (m =? 4) || (m =? 6) || (m =? 9) || (m =? 11) then 30
  else 31.

(** The format is compiled to the regular expression
    [(?P<y>\d\d)(?P<m>1[0-2]|0[1-9]|[1-9])(?P<d>3[0-1]|[1-2]\d|0[1-9]|[1-9]| [1-9])]
    and matched at the start of the string.  The alternatives of a group
    are tried in order; each function lists, in that order, the ways its
    group can match a prefix, as (matched text, rest). *)

Definition two (p1 p2 : ascii -> bool) (s : str) : list (str * str) :=
  match s with
  | a :: b :: r => if p1 a && p2 b then [([a; b], r)] else []
  | _ => []
  end.

Definition one (p : ascii -> bool) (s : str) : list (str * str) :=
  match s with
  | a :: r => if p a then [([a], r)] else []
  | _ => []
  end.

Definition alts_y (s : str) : list (str * str) := two is_digit is_digit s.

Definition alts_m (s : str) : list (str * str) :=
  two (eqc "1") (in_range "0" "2") s
  ++ two (eqc "0") (in_range "1" "9") s
  ++ one (in_range "1" "9") s.

Definition alts_d (s : str) : list (str * str) :=
  two (eqc "3") (in_range "0" "1") s
  ++ two (in_range "1" "2") is_digit s
  ++ two (eqc "0") (in_range "1" "9") s
  ++ one (in_range "1" "9") s
  ++ two (eqc " ") (in_range "1" "9") s.

(** Two patterns in sequence: every way of matching the first, each
    followed by every way of matching the second, in backtracking
    order. *)
Definition then_ {A B : Type} (first : str -> list (A * str))
  (next : str -> list (B * str)) (s : str) : list ((A * B) * str) :=
  flat_map (fun '(a, r) => map (fun '(b, r') => ((a, b), r')) (next r))
           (first s).

(** The first way of matching the three groups in sequence: the groups
    found and the unconverted rest. *)
Definition match_format (s : str) : option ((str * (str * str)) * str) :=
  hd_error (then_ alts_y (then_ alts_m alts_d) s).

Section Datetime.

Variable max_str_digits : nat.

Definition strptime_y_m_d (s : str) : result datetime :=
  match match_format s with
  | None => Raise ValueError          (* does not match format *)
  | Some ((y, (m, d)), rest) =>
      match rest with
      | _ :: _ => Raise ValueError    (* unconverted data remains *)
      | [] =>
          bind (int max_str_digits y) (fun yv =>
          let yr := if yv <=? 68 then yv + 2000 else yv + 1900 in
          bind (int max_str_digits m) (fun mv =>
          bind (int max_str_digits d) (fun dv =>
          if (1 <=? dv) && (dv <=? days_in_month yr mv)
          then Return (mkdatetime yr mv dv)
          else Raise ValueError)))    (* day is out of range for month *)
      end
  end.

End Datetime.

(** [n] written with exactly [w] decimal digits, zero padded. *)
Fixpoint zero_padded (w : nat) (n : Z) : str :=
  match w with
  | O => []
  | S w' => zero_padded w' (n / 10) ++ [ascii_of_N (Z.to_N (48 + n mod 10))]
  end.

Definition strftime_Y_m_d (d : datetime) : str :=
  zero_padded 4 (year d) ++ "-" :: zero_padded 2 (month d)
  ++ "-" :: zero_padded 2 (day d).

(** *** [re.search(r'(\d{6})([CP])(\d+)', s)]

    [match_here] is the match anchored at the start of [s]: six digits,
    one of [C] and [P], then the longest run of digits, which has to be
    non-empty.  [search] takes the leftmost position where the anchored
    match succeeds and returns the three groups. *)

Definition is_CP (c : ascii) : bool := eqc c "C" || eqc c "P".

Fixpoint span_digits (s : str) : str * str :=
  match s with
  | c :: r =>
      if is_digit c then
        let '(ds, rest) := span_digits r in (c :: ds, rest)
      else ([], s)
  | [] => ([], [])
  end.

Definition match_here (s : str) : option (str * str * str) :=
  match s with
  | d1 :: d2 :: d3 :: d4 :: d5 :: d6 :: cp :: r =>
      if forallb is_digit [d1; d2; d3; d4; d5; d6] && is_CP cp then
        match span_digits r with
        | ([], _) => None
        | (ds, _) => Some ([d1; d2; d3; d4; d5; d6], [cp], ds)
        end
      else None
  | _ => None
  end.

Fixpoint search (s : str) : option (str * str * str) :=
  match match_here s with
  | Some groups => Some groups
  | None =>
      match s with
      | [] => None
      | _ :: r => search r
      end
  end.

End Py.

Import Py.
Coercion Py.lit : string >-> Py.str.

Notation "x <- c ;; k" := (Py.bind c (fun x => k))
  (at level 61, c at next level, right associativity).
Notation "' pat <- c ;; k" :=
  (Py.bind c (fun x => match x with pat => k end))
  (at level 61, pat pattern, c at next level, right associativity).

(** ** process_holdings.py *)

Section ProcessHoldings.

(** The interpreter's limit on the digits of an integer literal. *)
Variable max_str_digits : nat.

Definition parse_option_ticker (ticker : str)
  : result (option str * option str * option float) :=
  match search ticker with
  | Some (yy_mm_dd, option_type, strike_raw) =>
      (* 1. Format Expiration Date (YYMMDD to YYYY-MM-DD) *)
      expiration_date <-
        try_except_ValueError
          (date_obj <- strptime_y_m_d max_str_digits yy_mm_dd ;;
           Return (Some (strftime_Y_m_d date_obj)))
          None ;;
      (* 2. Convert Strike Price (dividing by 1000) *)
      strike_price <-
        try_except_ValueError
          (n <- int max_str_digits strike_raw ;;
           q <- int_truediv_float n float_1000 ;;
           Return (Some q))
          None ;;
      Return (expiration_date, Some option_type, strike_price)
  | None => Return (None, None, None)
  end.

(** A numeric cell of the [Quantity] column: [int64] or [float64]. *)
Inductive number : Type :=
| Int_ (z : Z)
| Float_ (f : float).

Definition float_zero : float := S754_zero false.

(** [quantity < 0] *)
Definition lt_zero (q : number) : bool :=
  match q with
  | Int_ z => z <? 0
  | Float_ f => SFltb f float_zero
  end.

(** The two columns of a row that [classify_holding] reads.  A missing
    option type is [None]; [pd.isna] is true of it and of nothing else
    here. *)
Record row : Type := mkrow { Quantity : number; Put_Call : option str }.

Definition notna {A : Type} (x : option A) : bool :=
  match x with
  | Some _ => true
  | None => false
  end.

Definition isna {A : Type} (x : option A) : bool := negb (notna x).

Definition str_eqb (a b : str) : bool :=
  if list_eq_dec ascii_dec a b then true else false.

(** The first [if] of [classify_holding]: [Some] label where it
    returns, [None] where control falls through. *)
Definition classify_short (quantity : number) (option_type : option str)
  : option str :=
  if notna option_type && lt_zero quantity then
    match option_type with
    | Some t =>
        if str_eqb t "C"%string then Some (lit "CC")           (* Covered Call *)
        else if str_eqb t "P"%string then Some (lit "CSP")     (* Cash-Secured Put *)
        else None
    | None => None
    end
  else None.

Definition classify_holding (r : row) : str :=
  let quantity := Quantity r in
  let option_type := Put_Call r in
  match classify_short quantity option_type with
  | Some label => label
  | None =>
      (* Non-option holdings are classified as 'Stock' *)
      match option_type with
      | None => lit "Stock"
      | Some t => lit "Long " ++ t
      end
  end.

(** One row through steps 3, 5 and 6 of [process_etf_data]: the ticker
    is cleaned of spaces, decoded, and the row classified. *)
Record enriched : Type := mkenriched {
  Ticker : str;
  Expiration : option str;
  Put_Call_ : option str;
  Strike : option float;
  Classification : str
}.

Definition clean_ticker (ticker : str) : str := remove_char " " ticker.

Definition enrich_row (ticker : str) (quantity : number) : result enriched :=
  let ticker := clean_ticker ticker in
  '(expiration, put_call, strike) <- parse_option_ticker ticker ;;
  Return (mkenriched ticker expiration put_call strike
            (classify_holding (mkrow quantity put_call))).

End ProcessHoldings.

(** ** The pattern, stated on substrings *)

Definition all_digits (s : str) : Prop := forallb is_digit s = true.

(** [d6], [cp], [ds] are six digits, one of [C] and [P], and a non-empty
    run of digits: the three groups of an option code. *)
Definition option_code (d6 cp ds : str) : Prop :=
  List.length d6 = 6%nat /\ all_digits d6
  /\ (cp = ["C"%char] \/ cp = ["P"%char])
  /\ ds <> [] /\ all_digits ds.

(** [s] does not go on with a digit. *)
Definition no_leading_digit (s : str) : Prop :=
  match s with
  | [] => True
  | c :: _ => is_digit c = false
  end.

(** The ticker has a substring that matches [\d{6}[CP]\d+]. *)
Definition contains_option_code (t : str) : Prop :=
  exists pre d6 cp ds post,
    t = pre ++ d6 ++ cp ++ ds ++ post /\ option_code d6 cp ds.

(** The two [try] statements of [parse_option_ticker], named. *)
Definition expiration_of (max_str_digits : nat) (yy_mm_dd : str)
  : result (option str) :=
  try_except_ValueError
    (date_obj <- strptime_y_m_d max_str_digits yy_mm_dd ;;
     Return (Some (strftime_Y_m_d date_obj)))
    None.

Definition strike_of (max_str_digits : nat) (strike_raw : str)
  : result (option float) :=
  try_except_ValueError
    (n <- int max_str_digits strike_raw ;;
     q <- int_truediv_float n float_1000 ;;
     Return (Some q))
    None.

(** [0 <= quantity] *)
Definition ge_zero (q : number) : bool :=
  match q with
  | Int_ z => 0 <=? z
  | Float_ f => SFleb float_zero f
  end.

(** The invariant of the data model, as the specification words it: the
    three fields are present together or absent together. *)
Definition all_or_nothing (r : option str * option str * option float)
  : Prop :=
  let '(d, ty, k) := r in
  (d <> None /\ ty <> None /\ k <> None)
  \/ (d = None /\ ty = None /\ k = None).

(** The float [f] is exactly the rational [num / den] (for [0 < den]). *)
Definition float_is_ratio (f : float) (num den : Z) : Prop :=
  match f with
  | S754_zero _ => num = 0
  | S754_finite s m e =>
      let v := if s then Zneg m else Zpos m in
      if 0 <=? e then v * 2 ^ e * den = num
      else v * den = num * 2 ^ (- e)
  | _ => False
  end.

(** The number a run of digits denotes. *)
Definition decimal_value (s : str) : Z :=
  fold_left (fun acc c => 10 * acc + digit_value c) s 0.

Definition dec2 (a b : ascii) : Z := 10 * digit_value a + digit_value b.

(** The year [strptime] gives a two-digit year: 00..68 are in the 2000s,
    69..99 in the 1900s. *)
Definition two_digit_year (yy : Z) : Z :=
  if yy <=? 68 then yy + 2000 else yy + 1900.

(** Month [m] and day [d] exist in year [y] of the calendar. *)
Definition valid_date (y m d : Z) : bool :=
  (1 <=? m) && (m <=? 12) && (1 <=? d) && (d <=? days_in_month y m).

(** What the first [try] statement computes from six digits. *)
Definition expiration_spec (y1 y2 m1 m2 d1 d2 : ascii) : option str :=
  let y := two_digit_year (dec2 y1 y2) in
  if valid_date y (dec2 m1 m2) (dec2 d1 d2)
  then Some (zero_padded 4 y ++ "-"%char :: [m1; m2] ++ "-"%char :: [d1; d2])
  else None.

Definition digit_chars : list ascii := lit "0123456789".

(** On four digits, the month and day groups match the whole text
    exactly when the month is 01..12 and the day 01..31; otherwise the
    match fails or leaves text over. *)
Definition month_day_ok (m1 m2 d1 d2 : ascii) : bool :=
  let in_ranges :=
    (1 <=? dec2 m1 m2) && (dec2 m1 m2 <=? 12)
    && (1 <=? dec2 d1 d2) && (dec2 d1 d2 <=? 31) in
  match hd_error (then_ alts_m alts_d [m1; m2; d1; d2]) with
  | Some ((m, d), []) =>
      in_ranges && str_eqb m [m1; m2] && str_eqb d [d1; d2]
  | _ => negb in_ranges
  end.

Definition month_day_table : bool :=
  forallb (fun m1 => forallb (fun m2 =>
  forallb (fun d1 => forallb (fun d2 => month_day_ok m1 m2 d1 d2)
  digit_chars) digit_chars) digit_chars) digit_chars.

(** ** More of the Python runtime *)

(** A string as its code points, for text that may leave the 8-bit
    range: [str.upper] sends three characters below 256 beyond it. *)
Definition ustr : Type := list Z.

Definition codes (s : str) : ustr := map code s.

(** [c.upper()] for a character below 256: the letters a-z and
    U+00E0..U+00FE (but the division sign) move down by 32; the micro
    sign becomes U+039C, the sharp s becomes [SS], y with diaeresis
    becomes U+0178. *)
Definition upper_char (c : ascii) : ustr :=
  let n := code c in
  if (97 <=? n) && (n <=? 122) then [n - 32]
  else if n =? 181 then [924]
  else if n =? 223 then [83; 83]
  else if n =? 255 then [376]
  else if (224 <=? n) && (n <=? 254) && negb (n =? 247) then [n - 32]
  else [n].

Definition upper (s : str) : ustr := flat_map upper_char s.

(** [c.isdigit()] below 256: the decimal digits and the superscripts
    one, two and three. *)
Definition is_isdigit (c : ascii) : bool :=
  is_digit c || (code c =? 178) || (code c =? 179) || (code c =? 185).

(** [p in s] on strings: [p] occurs in [s] as a substring. *)
Fixpoint is_prefix {A : Type} (eqb : A -> A -> bool) (p s : list A) : bool :=
  match p, s with
  | [], _ => true
  | x :: p', y :: s' => eqb x y && is_prefix eqb p' s'
  | _ :: _, [] => false
  end.

Fixpoint occurs_in {A : Type} (eqb : A -> A -> bool) (p s : list A) : bool :=
  is_prefix eqb p s
  || match s with
     | [] => false
     | _ :: r => occurs_in eqb p r
     end.

(** [s.replace(old, new)]: the occurrences of [old] are replaced from
    the left, each search resuming after the last replacement.
    [replace_from] has [skip] characters of a replaced occurrence still
    to drop. *)
Fixpoint replace_from (old new : str) (skip : nat) (s : str) : str :=
  match s with
  | [] => []
  | c :: r =>
      match skip with
      | S k => replace_from old new k r
      | O =>
          if is_prefix eqc old s
          then new ++ replace_from old new (List.length old - 1) r
          else c :: replace_from old new 0 r
      end
  end.

Definition replace (old new s : str) : str :=
  match old with
  | [] => new ++ flat_map (fun c => c :: new) s
  | _ :: _ => replace_from old new 0 s
  end.

(** [os.path.join(a, b)] and [os.path.basename(p)], as [posixpath]
    has them *)
Definition path_join (a b : str) : str :=
  match b with
  | "/"%char :: _ => b
  | _ =>
      match rev a with
      | [] => b
      | "/"%char :: _ => a ++ b
      | _ => a ++ "/"%char :: b
      end
  end.

Definition basename (p : str) : str :=
  fold_left (fun acc c => if eqc c "/" then [] else acc ++ [c]) p [].

(** ** The rest of process_holdings.py: [process_etf_data] *)

(** A line of the holdings table, with its quantity as
    [pd.to_numeric(..., errors='coerce')] leaves it (a cell that is no
    number is NaN) and its description as a string. *)
Record holding : Type := mkholding {
  h_Ticker : str;
  h_Quantity : number;
  h_Description : str
}.

(** [.fillna(0)] on a cell *)
Definition fillna_zero (q : number) : number :=
  match q with
  | Float_ S754_nan => Float_ float_zero
  | _ => q
  end.

Definition cash_keywords : list str :=
  map lit ["TREASURY"; "CASH"; "SWAP"; "REPURCHASE"; "RECEIVABLE";
           "DEPOSIT"; "FUTURES"; "CONTRACT"; "MMKT"]%string.

(** [Description.str.upper().str.contains('|'.join(cash_keywords))]: the
    pattern is an alternation of plain words, and matches where one of
    them occurs. *)
Definition is_cash_line (description : str) : bool :=
  existsb (fun kw => occurs_in Z.eqb (codes kw) (upper description))
          cash_keywords.

(** [Series.apply]: the function is called on the cells in order, and
    the first exception ends the call. *)
Fixpoint apply_ {A B : Type} (f : A -> result B) (l : list A)
  : result (list B) :=
  match l with
  | [] => Return []
  | a :: r => b <- f a ;; bs <- apply_ f r ;; Return (b :: bs)
  end.

Section ProcessEtfData.

Variable max_str_digits : nat.

(** Steps 2 to 6 of [process_etf_data] on the lines of the table. *)
Definition process_rows (df : list holding) : result (list enriched) :=
  (* 2. Quantity to numbers, NaN to 0 *)
  let df := map (fun h => mkholding (h_Ticker h) (fillna_zero (h_Quantity h))
                            (h_Description h)) df in
  (* 3. Clean Ticker: Remove all spaces *)
  let df := map (fun h => mkholding (clean_ticker (h_Ticker h)) (h_Quantity h)
                            (h_Description h)) df in
  (* 4. Filter out cash, treasury, and other non-security lines *)
  let df := filter (fun h => negb (is_cash_line (h_Description h))) df in
  (* 5. Apply the parsing function and expand results *)
  parsed_results <-
    apply_ (fun h => parse_option_ticker max_str_digits (h_Ticker h)) df ;;
  match parsed_results with
  | [] =>
      (* the frame built from no result has no column, and setting the
         three new columns from it fails: "Columns must be same length
         as key" *)
      Raise ValueError
  | _ :: _ =>
      (* 6. Apply the classification logic *)
      Return (map (fun '(h, (expiration, put_call, strike)) =>
                     mkenriched (h_Ticker h) expiration put_call strike
                       (classify_holding (mkrow (h_Quantity h) put_call)))
                  (combine df parsed_results))
  end.

End ProcessEtfData.

(** The labels [classify_holding] gives rows of decoded tickers. *)
Definition labels : list str :=
  map lit ["Stock"; "CC"; "CSP"; "Long C"; "Long P"]%string.

(** A float that is finite and zero or more. *)
Definition is_finite_nonneg (f : float) : bool :=
  match f with
  | S754_zero false | S754_finite false _ _ => true
  | _ => false
  end.

(** The columns: the check on the columns read, the columns the
    enrichment sets, and step 8, the final order. *)
Definition is_in (c : str) (l : list str) : bool := existsb (str_eqb c) l.

Definition has_required_columns (columns : list str) : bool :=
  is_in (lit "Ticker") columns && is_in (lit "Quantity") columns
  && is_in (lit "Description") columns.

(** [df[name] = ...]: an existing column keeps its place, a new one goes
    last. *)
Definition set_column (name : str) (columns : list str) : list str :=
  if is_in name columns then columns else columns ++ [name].

Definition enriched_columns (columns : list str) : list str :=
  set_column (lit "ETF")
    (set_column (lit "Classification")
       (set_column (lit "Strike")
          (set_column (lit "Put/Call")
             (set_column (lit "Expiration") columns)))).

Definition target_start_cols : list str :=
  map lit ["ETF"; "Ticker"; "Put/Call"; "Strike"; "Expiration";
           "Classification"]%string.

Definition final_cols (columns : list str) : list str :=
  let other_cols :=
    filter (fun col => negb (is_in col target_start_cols)) columns in
  filter (fun col => is_in col columns) target_start_cols ++ other_cols.

(** ** weeklies.py and new_encriched_weeklies.py *)

Definition OUTPUT_DIR : str := lit "data".

(** The path [download_weeklys] writes to and returns, for the day's
    date as [strftime("%Y-%m-%d")] gives it. *)
Definition raw_weeklys_path (today_str : str) : str :=
  path_join OUTPUT_DIR (lit "raw_weeklys_" ++ today_str ++ lit ".csv").

(** The date the main block reads back from that path, and the archive
    path [save_local_files] builds from it. *)
Definition date_str_of (raw_file : str) : str :=
  replace (lit ".csv") []
    (replace (lit "raw_weeklys_") [] (basename raw_file)).

Definition archive_path (date_str : str) : str :=
  path_join OUTPUT_DIR (lit "weeklys_enriched_" ++ date_str ++ lit ".csv").

(** A [dict] with string keys, as the list of its items in insertion
    order; setting a key that is present keeps its place. *)
Definition pydict : Type := list (ustr * str).

Definition ustr_eqb (a b : ustr) : bool :=
  if list_eq_dec Z.eq_dec a b then true else false.

Fixpoint dict_set (k : ustr) (v : str) (d : pydict) : pydict :=
  match d with
  | [] => [(k, v)]
  | (k', v') :: r =>
      if ustr_eqb k k' then (k, v) :: r else (k', v') :: dict_set k v r
  end.

Fixpoint dict_get (k : ustr) (d : pydict) : option str :=
  match d with
  | [] => None
  | (k', v) :: r => if ustr_eqb k k' then Some v else dict_get k r
  end.

(** The name looks like a date (e.g. 11/28/25). *)
Definition looks_like_date (col1 : str) : bool :=
  occurs_in eqc (lit "/") col1 && (List.length col1 <=? 10)%nat
  && existsb is_isdigit col1.

(** One row of the loop of [parse_csv_to_data]: the item it stores, or
    [None] where it goes on to the next row. *)
Definition csv_row_item (row : list str) : option (ustr * str) :=
  match row with
  | c0 :: c1 :: _ =>
      let col0 := upper (strip c0) in
      let col1 := strip c1 in
      (* Basic filters to skip headers and dates *)
      if match col0 with [] => true | _ => false end
         || occurs_in Z.eqb (codes (lit "AVAILABLE WEEKLYS")) col0
         || occurs_in Z.eqb (codes (lit "TICKER")) col0
      then None
      else if looks_like_date col1 then None
      else Some (col0, col1)
  | _ => None
  end.

(** The body of the loop, and [parse_csv_to_data] on the rows
    [csv.reader] yields. *)
Definition csv_step (data_map : pydict) (row : list str) : pydict :=
  match csv_row_item row with
  | Some (col0, col1) => dict_set col0 col1 data_map
  | None => data_map
  end.

Definition parse_csv_to_data (rows : list (list str)) : pydict :=
  fold_left csv_step rows [].


(** ** Facts on [re.search] *)

Lemma span_digits_spec (s ds rest : str) :
  span_digits s = (ds, rest) ->
  s = ds ++ rest /\ all_digits ds /\ no_leading_digit rest.
Proof.
  revert ds rest; induction s as [|c r IH]; intros ds rest; simpl.
  - intros [= <- <-]; repeat split.
  - destruct (is_digit c) eqn:Hc.
    + destruct (span_digits r) as [ds' rest'] eqn:Hr.
      intros [= <- <-].
      destruct (IH _ _ eq_refl) as (-> & Hd & Hn).
      repeat split; [unfold all_digits; simpl; now rewrite Hc | exact Hn].
    + intros [= <- <-]; repeat split; exact Hc.
Qed.

Lemma span_digits_app (ds post : str) :
  all_digits ds -> no_leading_digit post ->
  span_digits (ds ++ post) = (ds, post).
Proof.
  unfold all_digits; induction ds as [|c r IH]; simpl; intros Hd Hp.
  - destruct post as [|c r]; [reflexivity|].
    simpl in *; now rewrite Hp.
  - apply andb_true_iff in Hd as [Hc Hr].
    now rewrite Hc, (IH Hr Hp).
Qed.

Lemma span_digits_prefix (ds post : str) :
  all_digits ds ->
  exists more rest, span_digits (ds ++ post) = (ds ++ more, rest)
                    /\ post = more ++ rest.
Proof.
  unfold all_digits; induction ds as [|c r IH]; simpl; intros Hd.
  - destruct (span_digits post) as [more rest] eqn:Hs.
    exists more, rest; split; [reflexivity|].
    now destruct (span_digits_spec _ _ _ Hs).
  - apply andb_true_iff in Hd as [Hc Hr].
    destruct (IH Hr) as (more & rest & -> & Hp).
    exists more, rest; now rewrite Hc.
Qed.

Lemma is_CP_spec (c : ascii) :
  is_CP c = true <-> c = "C"%char \/ c = "P"%char.
Proof.
  unfold is_CP, eqc; rewrite orb_true_iff, !Ascii.eqb_eq; tauto.
Qed.

Lemma match_here_sound (s a b c : str) :
  match_here s = Some (a, b, c) ->
  exists rest, s = a ++ b ++ c ++ rest /\ option_code a b c
               /\ no_leading_digit rest.
Proof.
  unfold match_here.
  destruct s as [|d1 [|d2 [|d3 [|d4 [|d5 [|d6 [|cp r]]]]]]]; try discriminate.
  destruct (forallb is_digit [d1; d2; d3; d4; d5; d6] && is_CP cp) eqn:Hg;
    [|discriminate].
  apply andb_true_iff in Hg as [Hd Hcp].
  destruct (span_digits r) as [ds rest] eqn:Hs.
  destruct ds as [|x ds]; [discriminate|].
  intros [= <- <- <-].
  destruct (span_digits_spec _ _ _ Hs) as (-> & Hds & Hn).
  exists rest; split; [reflexivity|]; split; [|exact Hn].
  repeat split; try assumption; try discriminate.
  apply is_CP_spec in Hcp as [->| ->]; auto.
Qed.

Lemma match_here_prefix (a b c post : str) :
  option_code a b c ->
  exists more rest, match_here (a ++ b ++ c ++ post) = Some (a, b, c ++ more)
                    /\ post = more ++ rest.
Proof.
  intros (Hlen & Ha & Hb & Hne & Hc).
  destruct a as [|d1 [|d2 [|d3 [|d4 [|d5 [|d6 [|? ?]]]]]]]; try discriminate.
  destruct (span_digits_prefix c post Hc) as (more & rest & Hs & Hp).
  exists more, rest; split; [|exact Hp].
  assert (Hcp : exists x, b = [x] /\ is_CP x = true).
  { destruct Hb as [->| ->]; eexists; split; reflexivity. }
  destruct Hcp as (x & -> & Hx).
  cbn [app match_here]; unfold all_digits in Ha; rewrite Ha, Hx; cbn [andb].
  rewrite Hs; destruct c; [congruence | reflexivity].
Qed.

Lemma match_here_complete (a b c post : str) :
  option_code a b c -> no_leading_digit post ->
  match_here (a ++ b ++ c ++ post) = Some (a, b, c).
Proof.
  intros Hoc Hn.
  pose proof Hoc as (Hlen & Ha & Hb & Hne & Hc).
  destruct (match_here_prefix a b c post Hoc) as (more & rest & Hm & Hp).
  rewrite Hm.
  destruct more as [|x more]; [now rewrite app_nil_r|].
  exfalso.
  apply match_here_sound in Hm as (rest' & Heq & (_ & _ & _ & _ & Hall) & _).
  subst post; simpl in Hn.
  unfold all_digits in Hall; rewrite forallb_app in Hall; simpl in Hall.
  rewrite Hn in Hall; simpl in Hall; rewrite andb_false_r in Hall.
  discriminate.
Qed.

Lemma search_sound (t : str) (g : str * str * str) :
  search t = Some g ->
  exists pre rest, t = pre ++ rest /\ match_here rest = Some g
    /\ forall p r, pre = p ++ r -> r <> [] -> match_here (r ++ rest) = None.
Proof.
  induction t as [|x t IH]; cbn [search].
  - destruct (match_here []) eqn:Hm; [|discriminate].
    intros [= <-]; exists [], []; repeat split; auto.
    intros u v Hp Hr; destruct u; destruct v; simpl in *; congruence.
  - destruct (match_here (x :: t)) eqn:Hm.
    + intros [= <-]; exists [], (x :: t); repeat split; auto.
      intros u v Hp Hr; destruct u; destruct v; simpl in *; congruence.
    + intros Hs; destruct (IH Hs) as (pre & rest & -> & Hr & Hleft).
      exists (x :: pre), rest; repeat split; auto.
      intros p r Hp Hne; destruct p as [|y p]; simpl in Hp.
      * subst r; exact Hm.
      * injection Hp as -> ->; now apply (Hleft p r).
Qed.

Lemma search_None (t : str) :
  search t = None -> forall p r, t = p ++ r -> match_here r = None.
Proof.
  induction t as [|x t IH]; cbn [search].
  - destruct (match_here []) eqn:Hm; [discriminate|].
    intros _ u v Hp; destruct u; destruct v; simpl in *; congruence.
  - destruct (match_here (x :: t)) eqn:Hm; [discriminate|].
    intros Hs p r Hp; destruct p as [|y p]; simpl in Hp.
    + now subst r.
    + injection Hp as -> ->; now apply (IH Hs p r).
Qed.

Lemma search_skip (pre rest : str) :
  (forall p r, pre = p ++ r -> r <> [] -> match_here (r ++ rest) = None) ->
  search (pre ++ rest) = search rest.
Proof.
  induction pre as [|x pre IH]; intros H; [reflexivity|].
  assert (H0 : match_here ((x :: pre) ++ rest) = None)
    by (apply (H [] (x :: pre) eq_refl); discriminate).
  cbn [app search] in *; rewrite H0.
  apply IH; intros p r -> Hr; now apply (H (x :: p) r).
Qed.

Lemma search_here (s : str) (g : str * str * str) :
  match_here s = Some g -> search s = Some g.
Proof.
  intros H; destruct s; cbn [search]; now rewrite H.
Qed.

Lemma search_groups (t a b c : str) :
  search t = Some (a, b, c) -> option_code a b c.
Proof.
  intros H; apply search_sound in H as (pre & rest & _ & Hm & _).
  now apply match_here_sound in Hm as (? & _ & Hoc & _).
Qed.

Lemma search_None_iff (t : str) :
  search t = None <-> ~ contains_option_code t.
Proof.
  split.
  - intros Hs (pre & d6 & cp & ds & post & -> & Hoc).
    destruct (match_here_prefix d6 cp ds post Hoc) as (more & rest & Hm & _).
    rewrite (search_None _ Hs pre _ eq_refl) in Hm; discriminate.
  - intros Hn; destruct (search t) as [[[a b] c]|] eqn:Hs; [|reflexivity].
    exfalso; apply Hn.
    apply search_sound in Hs as (pre & rest & -> & Hm & _).
    apply match_here_sound in Hm as (post & -> & Hoc & _).
    now exists pre, a, b, c, post.
Qed.

Lemma search_Some_contains (t a b c : str) :
  search t = Some (a, b, c) -> contains_option_code t.
Proof.
  intros Hs; apply search_sound in Hs as (pre & rest & -> & Hm & _).
  apply match_here_sound in Hm as (post & -> & Hoc & _).
  now exists pre, a, b, c, post.
Qed.

Lemma parse_option_ticker_eq (lim : nat) (t : str) :
  parse_option_ticker lim t =
  match search t with
  | Some (a, b, c) =>
      e <- expiration_of lim a ;;
      k <- strike_of lim c ;;
      Return (e, Some b, k)
  | None => Return (None, None, None)
  end.
Proof. reflexivity. Qed.

Lemma parse_matched_inv (lim : nat) (t a b c : str) d ty k :
  search t = Some (a, b, c) ->
  parse_option_ticker lim t = Return (d, ty, k) ->
  expiration_of lim a = Return d /\ ty = Some b /\ strike_of lim c = Return k.
Proof.
  intros Hs; rewrite parse_option_ticker_eq, Hs.
  destruct (expiration_of lim a) as [e|]; [|discriminate].
  destruct (strike_of lim c) as [k'|]; [|discriminate].
  cbn; intros [= <- <- <-]; auto.
Qed.

Lemma occurrence_matches (pre d6 cp ds post : str) :
  option_code d6 cp ds ->
  match_here (d6 ++ cp ++ ds ++ post) <> None.
Proof.
  intros Hoc; destruct (match_here_prefix d6 cp ds post Hoc) as (? & ? & -> & _).
  discriminate.
Qed.

(** ** Facts on digits and [int] *)

Lemma is_digit_In (c : ascii) : is_digit c = true -> In c digit_chars.
Proof.
  destruct c as [[] [] [] [] [] [] [] []]; vm_compute; intros H;
    try discriminate; tauto.
Qed.

Lemma In_digit_chars (c : ascii) : In c digit_chars -> is_digit c = true.
Proof.
  intros H; repeat (destruct H as [<-|H]; [reflexivity|]); destruct H.
Qed.

Lemma digit_value_range (c : ascii) :
  is_digit c = true -> 0 <= digit_value c <= 9.
Proof.
  intros H; apply is_digit_In in H.
  repeat (destruct H as [<-|H]; [vm_compute; split; discriminate|]).
  destruct H.
Qed.

Lemma digit_not_space (c : ascii) : is_digit c = true -> is_space c = false.
Proof.
  intros H; apply is_digit_In in H.
  repeat (destruct H as [<-|H]; [reflexivity|]); destruct H.
Qed.

Lemma all_digits_cons (c : ascii) (s : str) :
  all_digits (c :: s) <-> is_digit c = true /\ all_digits s.
Proof. unfold all_digits; simpl; apply andb_true_iff. Qed.

Lemma all_digits_rev (s : str) : all_digits s -> all_digits (rev s).
Proof.
  unfold all_digits; rewrite !forallb_forall.
  intros H c Hc; apply H; now apply in_rev.
Qed.

Lemma lstrip_digits (s : str) : all_digits s -> lstrip s = s.
Proof.
  destruct s as [|c r]; [reflexivity|].
  intros H; apply all_digits_cons in H as [Hc _].
  simpl; now rewrite (digit_not_space c Hc).
Qed.

Lemma strip_digits (s : str) : all_digits s -> strip s = s.
Proof.
  intros H; unfold strip, rstrip.
  rewrite (lstrip_digits s H), (lstrip_digits _ (all_digits_rev s H)).
  apply rev_involutive.
Qed.

Lemma int_literal_digits (s : str) (acc : Z) (n : nat) (b : bool) :
  all_digits s -> s <> [] \/ b = true ->
  int_literal acc n b s
  = Some (fold_left (fun a c => 10 * a + digit_value c) s acc,
          (n + List.length s)%nat).
Proof.
  revert acc n b; induction s as [|c r IH]; intros acc n b Hs Hb.
  - destruct Hb as [Hb| ->]; [congruence|].
    simpl; now rewrite Nat.add_0_r.
  - apply all_digits_cons in Hs as [Hc Hr].
    simpl; rewrite Hc, (IH _ _ true Hr) by now right.
    do 2 f_equal; lia.
Qed.

Lemma int_digits (lim : nat) (s : str) :
  all_digits s -> s <> [] ->
  int lim s = if exceeds_limit lim (List.length s) then Raise ValueError
              else Return (decimal_value s).
Proof.
  intros Hs Hne; unfold int; rewrite (strip_digits s Hs).
  assert (Hl := int_literal_digits s 0 0 false Hs (or_introl Hne)).
  destruct s as [|c r]; [congruence|].
  pose proof (proj1 (all_digits_cons c r) Hs) as [Hc _].
  apply is_digit_In in Hc.
  repeat (destruct Hc as [<-|Hc]; [now rewrite Hl|]); destruct Hc.
Qed.

Lemma int_two_digits (lim : nat) (a b : ascii) :
  is_digit a = true -> is_digit b = true ->
  int lim [a; b] = Return (dec2 a b).
Proof.
  intros Ha Hb; rewrite int_digits.
  - reflexivity.
  - unfold all_digits; simpl; now rewrite Ha, Hb.
  - discriminate.
Qed.

(** ** Facts on [strptime] and [strftime] *)

Lemma str_eqb_eq (a b : str) : str_eqb a b = true <-> a = b.
Proof.
  unfold str_eqb; destruct (list_eq_dec ascii_dec a b); split;
    congruence.
Qed.

Lemma month_day_table_ok : month_day_table = true.
Proof. vm_compute; reflexivity. Qed.

Lemma month_day_ok_digits (m1 m2 d1 d2 : ascii) :
  all_digits [m1; m2; d1; d2] -> month_day_ok m1 m2 d1 d2 = true.
Proof.
  intros H.
  apply all_digits_cons in H as [H1 H]; apply all_digits_cons in H as [H2 H].
  apply all_digits_cons in H as [H3 H]; apply all_digits_cons in H as [H4 _].
  pose proof month_day_table_ok as T; unfold month_day_table in T.
  rewrite forallb_forall in T; specialize (T m1 (is_digit_In _ H1)).
  rewrite forallb_forall in T; specialize (T m2 (is_digit_In _ H2)).
  rewrite forallb_forall in T; specialize (T d1 (is_digit_In _ H3)).
  rewrite forallb_forall in T; exact (T d2 (is_digit_In _ H4)).
Qed.

Lemma zero_padded_two (a b : ascii) :
  is_digit a = true -> is_digit b = true ->
  zero_padded 2 (dec2 a b) = [a; b].
Proof.
  intros Ha Hb; apply is_digit_In in Ha, Hb.
  repeat (destruct Ha as [<-|Ha];
          [repeat (destruct Hb as [<-|Hb]; [reflexivity|]); destruct Hb|]).
  destruct Ha.
Qed.

Lemma days_in_month_le (y m : Z) : days_in_month y m <= 31.
Proof.
  unfold days_in_month.
  destruct (m =? 2); [destruct (is_leap y); lia|].
  destruct ((m =? 4) || (m =? 6) || (m =? 9) || (m =? 11)); lia.
Qed.

Lemma hd_error_map {A B : Type} (f : A -> B) (l : list A) :
  hd_error (map f l) = option_map f (hd_error l).
Proof. now destruct l. Qed.

Lemma strptime_digits (lim : nat) (y1 y2 m1 m2 d1 d2 : ascii) :
  all_digits [y1; y2; m1; m2; d1; d2] ->
  strptime_y_m_d lim [y1; y2; m1; m2; d1; d2]
  = if valid_date (two_digit_year (dec2 y1 y2)) (dec2 m1 m2) (dec2 d1 d2)
    then Return (mkdatetime (two_digit_year (dec2 y1 y2))
                            (dec2 m1 m2) (dec2 d1 d2))
    else Raise ValueError.
Proof.
  intros H.
  apply all_digits_cons in H as [Hy1 H]; apply all_digits_cons in H as [Hy2 H].
  pose proof (month_day_ok_digits _ _ _ _ H) as Hmd.
  apply all_digits_cons in H as [Hm1 H]; apply all_digits_cons in H as [Hm2 H].
  apply all_digits_cons in H as [Hd1 H]; apply all_digits_cons in H as [Hd2 _].
  unfold strptime_y_m_d, match_format.
  unfold then_ at 1; unfold alts_y, two; rewrite Hy1, Hy2.
  cbn [andb flat_map]; rewrite app_nil_r, hd_error_map.
  unfold month_day_ok in Hmd.
  pose proof (days_in_month_le (two_digit_year (dec2 y1 y2)) (dec2 m1 m2)).
  unfold valid_date.
  destruct (hd_error (then_ alts_m alts_d [m1; m2; d1; d2]))
    as [[[m d] [|x rest]]|]; cbn [option_map].
  - apply andb_true_iff in Hmd as [Hmd Ed]; apply andb_true_iff in Hmd as [R Em].
    apply str_eqb_eq in Ed, Em; subst m d.
    rewrite !int_two_digits by assumption; cbn [bind].
    fold (two_digit_year (dec2 y1 y2)).
    apply andb_true_iff in R as [R _]; apply andb_true_iff in R as [R _].
    now rewrite R.
  - apply negb_true_iff in Hmd.
    destruct ((1 <=? dec2 m1 m2) && (dec2 m1 m2 <=? 12)); [|reflexivity].
    cbn [andb] in *.
    destruct (1 <=? dec2 d1 d2); [|reflexivity].
    cbn [andb] in *; apply Z.leb_gt in Hmd.
    destruct (Z.leb_spec (dec2 d1 d2)
                (days_in_month (two_digit_year (dec2 y1 y2)) (dec2 m1 m2)));
      [lia | reflexivity].
  - apply negb_true_iff in Hmd.
    destruct ((1 <=? dec2 m1 m2) && (dec2 m1 m2 <=? 12)); [|reflexivity].
    cbn [andb] in *.
    destruct (1 <=? dec2 d1 d2); [|reflexivity].
    cbn [andb] in *; apply Z.leb_gt in Hmd.
    destruct (Z.leb_spec (dec2 d1 d2)
                (days_in_month (two_digit_year (dec2 y1 y2)) (dec2 m1 m2)));
      [lia | reflexivity].
Qed.

Lemma expiration_of_digits (lim : nat) (y1 y2 m1 m2 d1 d2 : ascii) :
  all_digits [y1; y2; m1; m2; d1; d2] ->
  expiration_of lim [y1; y2; m1; m2; d1; d2]
  = Return (expiration_spec y1 y2 m1 m2 d1 d2).
Proof.
  intros H; unfold expiration_of, expiration_spec.
  rewrite (strptime_digits lim _ _ _ _ _ _ H).
  apply all_digits_cons in H as [_ H]; apply all_digits_cons in H as [_ H].
  apply all_digits_cons in H as [Hm1 H]; apply all_digits_cons in H as [Hm2 H].
  apply all_digits_cons in H as [Hd1 H]; apply all_digits_cons in H as [Hd2 _].
  destruct (valid_date _ _ _); [|reflexivity].
  cbn [bind try_except_ValueError]; unfold strftime_Y_m_d.
  cbn [year month day].
  now rewrite !zero_padded_two by assumption.
Qed.

(** ** Facts on binary64 rounding *)

Lemma digits2_size (p : positive) : digits2_pos p = Pos.size p.
Proof. induction p; simpl; congruence. Qed.

Lemma digits_bounds (p : positive) :
  2 ^ (Zpos (digits2_pos p) - 1) <= Zpos p < 2 ^ Zpos (digits2_pos p).
Proof.
  rewrite digits2_size.
  pose proof (Pos.size_gt p) as Hgt; pose proof (Pos.size_le p) as Hle.
  apply Pos2Z.pos_lt_pos in Hgt; apply Pos2Z.pos_le_pos in Hle.
  rewrite Pos2Z.inj_pow in Hgt, Hle.
  replace (Zpos (Pos.size p)) with (Zpos (Pos.size p) - 1 + 1) in Hle at 1 by lia.
  rewrite Z.pow_add_r in Hle by lia.
  change (Zpos p~0) with (2 * Zpos p) in Hle.
  lia.
Qed.

Lemma digits_unique (p : positive) (d : Z) :
  2 ^ (d - 1) <= Zpos p < 2 ^ d -> Zpos (digits2_pos p) = d.
Proof.
  intros [Hlo Hhi]; pose proof (digits_bounds p) as [Blo Bhi].
  assert (0 < d).
  { destruct (Z.ltb_spec 0 d); [assumption|].
    rewrite Z.pow_neg_r in Hlo by lia.
    assert (2 ^ d <= 1); [|lia].
    destruct (Z.eq_dec d 0) as [->|]; [simpl; lia|].
    rewrite Z.pow_neg_r by lia; lia. }
  destruct (Z.lt_trichotomy (Zpos (digits2_pos p)) d) as [L|[E|G]]; [|exact E|].
  - assert (2 ^ Zpos (digits2_pos p) <= 2 ^ (d - 1))
      by (apply Z.pow_le_mono_r; lia). lia.
  - assert (2 ^ d <= 2 ^ (Zpos (digits2_pos p) - 1))
      by (apply Z.pow_le_mono_r; lia). lia.
Qed.

Lemma iter_xO_mul (p k : positive) :
  Zpos (Pos.iter xO p k) = Zpos p * 2 ^ Zpos k.
Proof.
  rewrite <- Z.shiftl_mul_pow2 by lia.
  cbn [Z.shiftl]. 
  apply (Pos.iter_swap_gen _ _ Zpos xO (Z.mul 2)); reflexivity.
Qed.

Lemma iter_pos_nat {A : Type} (f : A -> A) (p : positive) (x : A) :
  iter_pos f p x = Nat.iter (Pos.to_nat p) f x.
Proof.
  revert x; induction p as [p IH|p IH|]; intros x; cbn [iter_pos].
  - rewrite !IH, Pos2Nat.inj_xI.
    replace (S (2 * Pos.to_nat p)) with (Pos.to_nat p + (Pos.to_nat p + 1))%nat by lia.
    rewrite !Nat.iter_add; reflexivity.
  - rewrite !IH, Pos2Nat.inj_xO.
    replace (2 * Pos.to_nat p)%nat with (Pos.to_nat p + Pos.to_nat p)%nat by lia.
    rewrite Nat.iter_add; reflexivity.
  - reflexivity.
Qed.

Lemma shr_1_m (mrs : shr_record) :
  0 <= shr_m mrs -> shr_m (shr_1 mrs) = shr_m mrs / 2.
Proof.
  destruct mrs as [m r s]; cbn [shr_m].
  destruct m as [|[p|p|]|p]; intros H; try lia; cbn [shr_1 shr_m];
    rewrite <- Z.div2_div; reflexivity.
Qed.

Lemma shr_1_r (mrs : shr_record) :
  0 <= shr_m mrs -> shr_r (shr_1 mrs) = Z.odd (shr_m mrs).
Proof.
  destruct mrs as [m r s]; cbn [shr_m].
  destruct m as [|[p|p|]|p]; intros H; try lia; reflexivity.
Qed.

Lemma iter_shr_1 (k : nat) (mrs : shr_record) :
  0 <= shr_m mrs ->
  shr_m (Nat.iter k shr_1 mrs) = shr_m mrs / 2 ^ Z.of_nat k
  /\ shr_r (Nat.iter (S k) shr_1 mrs) = Z.testbit (shr_m mrs) (Z.of_nat k).
Proof.
  intros H.
  assert (Hm : forall j, shr_m (Nat.iter j shr_1 mrs)
                         = shr_m mrs / 2 ^ Z.of_nat j).
  { induction j as [|j IH].
    - change (Nat.iter 0 shr_1 mrs) with mrs; now rewrite Z.div_1_r.
    - rewrite Nat.iter_succ, shr_1_m, IH.
      + rewrite Nat2Z.inj_succ, Z.pow_succ_r, Z.mul_comm by lia.
        rewrite Z.div_div by lia. reflexivity.
      + rewrite IH; apply Z.div_pos; lia. }
  split; [apply Hm|].
  rewrite Nat.iter_succ, shr_1_r, Hm.
  - rewrite Z.testbit_odd, Z.shiftr_div_pow2 by lia; reflexivity.
  - rewrite Hm; apply Z.div_pos; lia.
Qed.

Lemma round_nearest_even_cases (m : Z) (l : location) :
  round_nearest_even m l = m \/ round_nearest_even m l = m + 1.
Proof.
  destruct l as [|[| |]]; cbn; auto; destruct (Z.even m); auto.
Qed.


Lemma top_bits_bounds (p : positive) :
  54 <= Zpos (digits2_pos p) ->
  2 ^ 52 <= Zpos p / 2 ^ (Zpos (digits2_pos p) - 53) < 2 ^ 53.
Proof.
  intros Hd; pose proof (digits_bounds p) as [Hlo Hhi].
  set (k := Zpos (digits2_pos p) - 53) in *.
  assert (Hk : 0 < 2 ^ k) by (apply Z.pow_pos_nonneg; lia).
  replace (Zpos (digits2_pos p) - 1) with (52 + k) in Hlo by lia.
  replace (Zpos (digits2_pos p)) with (53 + k) in Hhi by lia.
  rewrite Z.pow_add_r in Hlo, Hhi by lia.
  split.
  - apply Z.div_le_lower_bound; lia.
  - apply Z.div_lt_upper_bound; lia.
Qed.

Lemma shr_fexp_53 (q : positive) (k : Z) :
  -1074 <= k -> Zpos (digits2_pos q) = 53 ->
  shr_fexp 53 1024 (Zpos q) k loc_Exact
  = (Build_shr_record (Zpos q) false false, k).
Proof.
  intros Hk Hq; unfold shr_fexp, fexp, emin, Zdigits2; rewrite Hq.
  replace (Z.max (53 + k - 53) (3 - 1024 - 53) - k) with 0 by lia.
  reflexivity.
Qed.

Lemma round_large (p : positive) :
  54 <= Zpos (digits2_pos p) ->
  let k := Zpos (digits2_pos p) - 53 in
  exists l : location,
    (Z.testbit (Zpos p) (k - 1) = false -> l = loc_Exact \/ l = loc_Inexact Lt)
    /\ (Z.testbit (Zpos p) (k - 1) = true ->
        l = loc_Inexact Eq \/ l = loc_Inexact Gt)
    /\ binary_round_aux 53 1024 false (Zpos p) 0 loc_Exact
       = let m2 := round_nearest_even (Zpos p / 2 ^ k) l in
         if m2 <? 2 ^ 53
         then (if k <=? 971 then S754_finite false (Z.to_pos m2) k
               else S754_infinity false)
         else (if k + 1 <=? 971
               then S754_finite false (Z.to_pos (2 ^ 52)) (k + 1)
               else S754_infinity false).
Proof.
  intros Hd k.
  pose proof (top_bits_bounds p Hd) as Hb; fold k in Hb.
  set (mrs := Nat.iter (Z.to_nat k) shr_1
                (Build_shr_record (Zpos p) false false)).
  assert (E1 : shr_fexp 53 1024 (Zpos p) 0 loc_Exact = (mrs, k)).
  { unfold shr_fexp, shr_record_of_loc, fexp, emin, Zdigits2.
    replace (Z.max (Zpos (digits2_pos p) + 0 - 53) (3 - 1024 - 53) - 0)
      with k by lia.
    destruct k as [|kp|kp] eqn:Ek; try lia.
    cbn [shr]; rewrite iter_pos_nat; reflexivity. }
  assert (Hm : shr_m mrs = Zpos p / 2 ^ k).
  { unfold mrs.
    destruct (iter_shr_1 (Z.to_nat k) (Build_shr_record (Zpos p) false false))
      as [-> _]; cbn [shr_m]; [lia|].
    now rewrite Z2Nat.id by lia. }
  assert (Hr : shr_r mrs = Z.testbit (Zpos p) (k - 1)).
  { unfold mrs.
    replace (Z.to_nat k) with (S (Z.to_nat (k - 1))) by lia.
    destruct (iter_shr_1 (Z.to_nat (k - 1))
                (Build_shr_record (Zpos p) false false))
      as [_ ->]; cbn [shr_m]; [lia|].
    now rewrite Z2Nat.id by lia. }
  exists (loc_of_shr_record mrs).
  split; [|split].
  - rewrite <- Hr; destruct mrs as [m [|] [|]]; cbn; auto; discriminate.
  - rewrite <- Hr; destruct mrs as [m [|] [|]]; cbn; auto; discriminate.
  - unfold binary_round_aux; rewrite E1, Hm.
    cbv zeta.
    set (m2 := round_nearest_even (Zpos p / 2 ^ k) (loc_of_shr_record mrs)).
    assert (Hm2 : m2 = Zpos p / 2 ^ k \/ m2 = Zpos p / 2 ^ k + 1)
      by apply round_nearest_even_cases.
    destruct (Z.ltb_spec m2 (2 ^ 53)) as [Hlt|Hge].
    + destruct m2 as [|q|q] eqn:Eq; try lia.
      rewrite shr_fexp_53; [reflexivity | lia |].
      apply digits_unique; lia.
    + assert (E2 : m2 = 2 ^ 53) by lia.
      rewrite E2.
      unfold shr_fexp, fexp, emin.
      change (Zdigits2 (2 ^ 53)) with 54.
      replace (Z.max (54 + k - 53) (3 - 1024 - 53) - k) with 1 by lia.
      reflexivity.
Qed.

Lemma binary_round_aux_53 (s : bool) (q : positive) (k : Z) :
  -1074 <= k <= 971 -> Zpos (digits2_pos q) = 53 ->
  binary_round_aux 53 1024 s (Zpos q) k loc_Exact = S754_finite s q k.
Proof.
  intros Hk Hq.
  assert (E : shr_fexp 53 1024 (Zpos q) k loc_Exact
              = (Build_shr_record (Zpos q) false false, k)).
  { unfold shr_fexp, fexp, emin, Zdigits2; rewrite Hq.
    replace (Z.max (53 + k - 53) (3 - 1024 - 53) - k) with 0 by lia.
    reflexivity. }
  unfold binary_round_aux; rewrite E; cbn [shr_m loc_of_shr_record
    round_nearest_even]; rewrite E; cbn [shr_m].
  destruct (Z.leb_spec k (1024 - 53)); [reflexivity | lia].
Qed.

Lemma round_small (p : positive) :
  Zpos (digits2_pos p) <= 53 ->
  binary_normalize 53 1024 (Zpos p) 0 false
  = S754_finite false
      (Z.to_pos (Zpos p * 2 ^ (53 - Zpos (digits2_pos p))))
      (Zpos (digits2_pos p) - 53).
Proof.
  intros Hd; pose proof (digits_bounds p) as [Hlo Hhi].
  unfold binary_normalize, binary_round, shl_align, fexp, emin.
  replace (Z.max (Zpos (digits2_pos p) + 0 - 53) (3 - 1024 - 53))
    with (Zpos (digits2_pos p) - 53) by lia.
  destruct (Zpos (digits2_pos p) - 53 - 0) as [|j|j] eqn:Ej; try lia.
  - replace (53 - Zpos (digits2_pos p)) with 0 by lia.
    rewrite Z.mul_1_r; cbn [Z.to_pos].
    rewrite binary_round_aux_53 by lia.
    f_equal; lia.
  - replace (53 - Zpos (digits2_pos p)) with (Zpos j) by lia.
    rewrite <- iter_xO_mul; cbn [Z.to_pos].
    apply binary_round_aux_53; [lia|].
    apply digits_unique; rewrite iter_xO_mul.
    replace 53 with (Zpos (digits2_pos p) + Zpos j) at 2 by lia.
    replace (53 - 1) with (Zpos (digits2_pos p) - 1 + Zpos j) by lia.
    rewrite !Z.pow_add_r by lia.
    assert (0 < 2 ^ Zpos j) by (apply Z.pow_pos_nonneg; lia).
    split; [apply Z.mul_le_mono_nonneg_r | apply Z.mul_lt_mono_pos_r]; lia.
Qed.

Lemma normalize_large (p : positive) :
  54 <= Zpos (digits2_pos p) ->
  binary_normalize 53 1024 (Zpos p) 0 false
  = binary_round_aux 53 1024 false (Zpos p) 0 loc_Exact.
Proof.
  intros Hd; unfold binary_normalize, binary_round, shl_align, fexp, emin.
  replace (Z.max (Zpos (digits2_pos p) + 0 - 53) (3 - 1024 - 53))
    with (Zpos (digits2_pos p) - 53) by lia.
  destruct (Zpos (digits2_pos p) - 53 - 0) as [|j|j] eqn:Ej; try lia.
  reflexivity.
Qed.

(** The round bit of [n] at [k] is the half-way mark of the dropped
    bits. *)
Lemma round_bit_spec (n k : Z) :
  0 <= n -> 1 <= k ->
  if Z.testbit n (k - 1)
  then 2 ^ k * (n / 2 ^ k) + 2 ^ (k - 1) <= n
  else n < 2 ^ k * (n / 2 ^ k) + 2 ^ (k - 1).
Proof.
  intros Hn Hk.
  assert (Hp : 0 < 2 ^ (k - 1)) by (apply Z.pow_pos_nonneg; lia).
  assert (E : 2 ^ k = 2 ^ (k - 1) * 2).
  { replace k with (k - 1 + 1) at 1 by lia.
    rewrite Z.pow_add_r by lia; reflexivity. }
  rewrite E, <- Z.div_div by lia.
  set (u := n / 2 ^ (k - 1)).
  pose proof (Z.div_mod n (2 ^ (k - 1)) ltac:(lia)) as Hdm; fold u in Hdm.
  pose proof (Z.mod_pos_bound n (2 ^ (k - 1)) Hp) as Hmb.
  pose proof (Z.div_mod u 2 ltac:(lia)) as Hu.
  pose proof (Z.mod_pos_bound u 2 ltac:(lia)) as Hub.
  destruct (Z.testbit n (k - 1)) eqn:Hb.
  - apply Z.testbit_true in Hb; [|lia]. fold u in Hb. nia.
  - apply Z.testbit_false in Hb; [|lia]. fold u in Hb. nia.
Qed.

Lemma pow_1024 : 2 ^ 1024 = 2 ^ 54 * 2 ^ 970.
Proof. rewrite <- Z.pow_add_r by lia; reflexivity. Qed.

Lemma pow_971 : 2 ^ 971 = 2 * 2 ^ 970.
Proof. rewrite <- (Z.pow_succ_r 2 970) by lia; reflexivity. Qed.

Lemma pow_1023 : 2 ^ 1023 = 2 ^ 53 * 2 ^ 970.
Proof. rewrite <- Z.pow_add_r by lia; reflexivity. Qed.

Lemma float_of_int_returns (n : Z) :
  0 <= n < 2 ^ 1024 - 2 ^ 970 ->
  exists f, float_of_int n = Return f
            /\ binary_normalize 53 1024 n 0 false = f.
Proof.
  intros [Hn Hlt]; unfold float_of_int, Py.prec, Py.emax.
  destruct n as [|p|p]; try lia.
  - eexists; split; reflexivity.
  - destruct (Z.le_gt_cases (Zpos (digits2_pos p)) 53) as [Hd|Hd].
    + rewrite round_small by assumption; eexists; split; reflexivity.
    + rewrite normalize_large by lia.
      destruct (round_large p ltac:(lia)) as (l & Hf & Ht & ->).
      cbv zeta.
      set (k := Zpos (digits2_pos p) - 53) in *.
      pose proof (top_bits_bounds p ltac:(lia)) as Hb; fold k in Hb.
      pose proof (digits_bounds p) as [Hlo Hhi].
      assert (Hk : k <= 971).
      { destruct (Z.le_gt_cases k 971); [assumption|exfalso].
        assert (2 ^ 1024 <= 2 ^ (Zpos (digits2_pos p) - 1))
          by (apply Z.pow_le_mono_r; lia).
        assert (0 < 2 ^ 970) by (apply Z.pow_pos_nonneg; lia). lia. }
      destruct (Z.ltb_spec (round_nearest_even (Zpos p / 2 ^ k) l) (2 ^ 53))
        as [Hr|Hr].
      * destruct (Z.leb_spec k 971); [|lia].
        eexists; split; reflexivity.
      * destruct (Z.leb_spec (k + 1) 971) as [|Hk1];
          [eexists; split; reflexivity | exfalso].
        assert (Ek : k = 971) by lia.
        pose proof (round_bit_spec (Zpos p) k ltac:(lia) ltac:(lia)) as Hbit.
        rewrite Ek, pow_971 in *.
        change (971 - 1) with 970 in *.
        rewrite pow_1024 in Hlt.
        assert (0 < 2 ^ 970) by (apply Z.pow_pos_nonneg; lia).
        set (X := 2 ^ 970) in *.
        set (m := Zpos p / (2 * X)) in *.
        destruct (Z.testbit (Zpos p) 970).
        -- assert (m <= 2 ^ 53 - 2) by nia.
           destruct (round_nearest_even_cases m l); lia.
        -- destruct (Hf eq_refl) as [-> | ->]; cbn in Hr; lia.
Qed.

Lemma float_of_int_overflow (n : Z) :
  2 ^ 1024 - 2 ^ 970 <= n -> float_of_int n = Raise OverflowError.
Proof.
  intros Hge; unfold float_of_int, Py.prec, Py.emax.
  assert (HX : 0 < 2 ^ 970) by (apply Z.pow_pos_nonneg; lia).
  pose proof pow_1024 as P1024; pose proof pow_1023 as P1023.
  destruct n as [|p|p]; try lia.
  pose proof (digits_bounds p) as [Hlo Hhi].
  assert (Hd : 1024 <= Zpos (digits2_pos p)).
  { destruct (Z.le_gt_cases 1024 (Zpos (digits2_pos p))); [assumption|].
    exfalso.
    assert (2 ^ Zpos (digits2_pos p) <= 2 ^ 1023)
      by (apply Z.pow_le_mono_r; lia). lia. }
  rewrite normalize_large by lia.
  destruct (round_large p ltac:(lia)) as (l & Hf & Ht & ->).
  cbv zeta.
  set (k := Zpos (digits2_pos p) - 53) in *.
  pose proof (top_bits_bounds p ltac:(lia)) as Hb; fold k in Hb.
  destruct (Z.leb_spec (k + 1) 971); [lia|].
  destruct (Z.leb_spec k 971) as [Hk|Hk].
  - assert (Ek : k = 971) by lia.
    pose proof (round_bit_spec (Zpos p) k ltac:(lia) ltac:(lia)) as Hbit.
    rewrite Ek, pow_971 in *.
    change (971 - 1) with 970 in *.
    set (X := 2 ^ 970) in *.
    assert (Em : Zpos p / (2 * X) = 2 ^ 53 - 1).
    { assert (2 ^ 53 - 1 <= Zpos p / (2 * X)); [|lia].
      apply Z.div_le_lower_bound; lia. }
    rewrite Em in *.
    destruct (Z.testbit (Zpos p) 970); [|lia].
    destruct (Ht eq_refl) as [-> | ->]; reflexivity.
  - destruct (_ <? _); reflexivity.
Qed.

Lemma binary_round_aux_54 (s : bool) (q : positive) (e : Z) :
  -1074 <= e <= 970 -> Zpos (digits2_pos q) = 53 ->
  binary_round_aux 53 1024 s (Zpos q~0) e loc_Exact = S754_finite s q (e + 1).
Proof.
  intros He Hq.
  assert (E : shr_fexp 53 1024 (Zpos q~0) e loc_Exact
              = (Build_shr_record (Zpos q) false false, e + 1)).
  { unfold shr_fexp, fexp, emin, Zdigits2.
    cbn [digits2_pos]; rewrite Pos2Z.inj_succ, Hq.
    replace (Z.max (Z.succ 53 + e - 53) (3 - 1024 - 53) - e) with 1 by lia.
    reflexivity. }
  unfold binary_round_aux; rewrite E; cbn [shr_m loc_of_shr_record
    round_nearest_even].
  rewrite shr_fexp_53 by lia; cbn [shr_m].
  destruct (Z.leb_spec (e + 1) (1024 - 53)); [reflexivity | lia].
Qed.

Lemma div_eucl_exact (a b : Z) :
  0 < b -> Z.div_eucl (b * a) b = (a, 0).
Proof.
  intros Hb.
  pose proof (Z.div_mul a b ltac:(lia)) as Hq.
  pose proof (Z.mod_mul a b ltac:(lia)) as Hr.
  rewrite Z.mul_comm in Hq, Hr.
  unfold Z.div, Z.modulo in Hq, Hr.
  destruct (Z.div_eucl (b * a) b) as [q r]; cbn in Hq, Hr; congruence.
Qed.

Lemma pow_lt_exp (a b : Z) : 0 <= b -> 2 ^ a < 2 ^ b -> a < b.
Proof. intros Hb H; apply (Z.pow_lt_mono_r_iff 2); lia. Qed.

Lemma digits_scaled (p : positive) (j D : Z) :
  0 <= j -> Zpos (digits2_pos p) + j = D ->
  2 ^ (D - 1) <= Zpos p * 2 ^ j < 2 ^ D.
Proof.
  intros Hj <-; pose proof (digits_bounds p) as [Hlo Hhi].
  assert (0 < 2 ^ j) by (apply Z.pow_pos_nonneg; lia).
  replace (Zpos (digits2_pos p) + j - 1)
    with (Zpos (digits2_pos p) - 1 + j) by lia.
  rewrite !Z.pow_add_r by lia.
  split; [apply Z.mul_le_mono_nonneg_r | apply Z.mul_lt_mono_pos_r]; lia.
Qed.

Lemma div_1000_exact (k : Z) :
  0 < k -> 1000 * k < 2 ^ 53 ->
  SFdiv 53 1024 (binary_normalize 53 1024 (1000 * k) 0 false) float_1000
  = binary_normalize 53 1024 k 0 false.
Proof.
  intros Hk Hn.
  destruct k as [|pk|pk]; try lia.
  destruct (1000 * Zpos pk) as [|pn|pn] eqn:En; try lia.
  pose proof (digits_bounds pn) as [Nlo Nhi].
  pose proof (digits_bounds pk) as [Klo Khi].
  set (dn := Zpos (digits2_pos pn)) in *.
  set (dk := Zpos (digits2_pos pk)) in *.
  assert (Hdn : dn <= 53).
  { destruct (Z.le_gt_cases dn 53); [assumption|exfalso].
    assert (2 ^ 53 <= 2 ^ (dn - 1)) by (apply Z.pow_le_mono_r; lia). lia. }
  assert (Hdk : dk <= 53).
  { destruct (Z.le_gt_cases dk 53); [assumption|exfalso].
    assert (2 ^ 53 <= 2 ^ (dk - 1)) by (apply Z.pow_le_mono_r; lia). lia. }
  assert (Hdn1 : 1 <= dn) by (unfold dn; lia).
  assert (Hdk1 : 1 <= dk) by (unfold dk; lia).
  rewrite !round_small by assumption; fold dn dk.
  assert (Pn : 0 < 2 ^ (53 - dn)) by (apply Z.pow_pos_nonneg; lia).
  assert (Pk : 0 < 2 ^ (53 - dk)) by (apply Z.pow_pos_nonneg; lia).
  unfold float_1000, SFdiv, SFdiv_core_binary, fexp, emin.
  cbn [xorb].
  change (Zdigits2 8796093022208000) with 53.
  assert (Dm : Zdigits2 (Zpos (Z.to_pos (Zpos pn * 2 ^ (53 - dn)))) = 53).
  { cbn [Zdigits2]; apply digits_unique.
    rewrite Z2Pos.id by lia; apply digits_scaled; unfold dn; lia. }
  rewrite Dm.
  replace (Z.min (Z.max (53 + (dn - 53) - (53 + -43) - 53) (3 - 1024 - 53))
                 (dn - 53 - -43)) with (dn - 63) by lia.
  replace (dn - 53 - -43 - (dn - 63)) with 53 by lia.
  rewrite Z.shiftl_mul_pow2, Z2Pos.id by lia.
  (* the quotient *)
  set (j := 63 - dn).
  assert (Pj : 0 < 2 ^ j) by (apply Z.pow_pos_nonneg; lia).
  assert (Eq : Zpos pn * 2 ^ (53 - dn) * 2 ^ 53
               = 8796093022208000 * (Zpos pk * 2 ^ j)).
  { rewrite <- En.
    replace (2 ^ j) with (2 ^ (53 - dn) * 2 ^ 10)
      by (unfold j; rewrite <- Z.pow_add_r by lia; f_equal; lia).
    change (2 ^ 53) with (2 ^ 10 * 2 ^ 43).
    change 8796093022208000 with (1000 * 2 ^ 43). ring. }
  rewrite Eq, div_eucl_exact by lia.
  change (new_location 8796093022208000 0) with loc_Exact.
  (* the quotient has 53 or 54 digits *)
  assert (Qlo : 2 ^ 52 < Zpos pk * 2 ^ j).
  { assert (2 ^ 62 <= 1000 * (Zpos pk * 2 ^ j)); [|lia].
    rewrite Z.mul_assoc, En.
    replace 62 with (dn - 1 + j) by (unfold j; lia).
    rewrite Z.pow_add_r by lia.
    apply Z.mul_le_mono_nonneg_r; lia. }
  assert (Qhi : Zpos pk * 2 ^ j < 2 ^ 54).
  { assert (1000 * (Zpos pk * 2 ^ j) < 2 ^ 63); [|lia].
    rewrite Z.mul_assoc, En.
    replace 63 with (dn + j) by (unfold j; lia).
    rewrite Z.pow_add_r by lia.
    apply Z.mul_lt_mono_pos_r; lia. }
  assert (Kj_lo : 2 ^ (dk - 1 + j) <= Zpos pk * 2 ^ j).
  { rewrite Z.pow_add_r by lia. apply Z.mul_le_mono_nonneg_r; lia. }
  assert (Kj_hi : Zpos pk * 2 ^ j < 2 ^ (dk + j)).
  { rewrite Z.pow_add_r by lia. apply Z.mul_lt_mono_pos_r; lia. }
  destruct (Z.lt_ge_cases (Zpos pk * 2 ^ j) (2 ^ 53)) as [Hlt|Hge].
  - assert (Ej : dk + j = 53).
    { assert (dk - 1 + j < 53) by (apply pow_lt_exp; lia).
      assert (52 < dk + j) by (apply pow_lt_exp; lia). lia. }
    replace (53 - dk) with j by lia.
    destruct (Zpos pk * 2 ^ j) as [|q|q] eqn:Eqq; try lia.
    rewrite binary_round_aux_53.
    + cbn [Z.to_pos]; f_equal; lia.
    + lia.
    + apply digits_unique; lia.
  - assert (Ej : dk + j = 54).
    { assert (dk - 1 + j < 54) by (apply pow_lt_exp; lia).
      assert (53 < dk + j) by (apply pow_lt_exp; lia). lia. }
    assert (E2 : Zpos pk * 2 ^ j = 2 * (Zpos pk * 2 ^ (53 - dk))).
    { replace j with (1 + (53 - dk)) by lia.
      rewrite Z.pow_add_r by lia. change (2 ^ 1) with 2. ring. }
    rewrite E2 in *.
    destruct (Zpos pk * 2 ^ (53 - dk)) as [|q|q] eqn:Eqq; try lia.
    change (2 * Zpos q) with (Zpos q~0).
    rewrite binary_round_aux_54.
    + cbn [Z.to_pos]; f_equal; lia.
    + lia.
    + apply digits_unique; lia.
Qed.

(** ** Facts on the strike conversion and on the date *)

Lemma float_of_int_raise (n : Z) (e : exn) :
  float_of_int n = Raise e -> e = OverflowError.
Proof.
  unfold float_of_int.
  destruct (binary_normalize prec emax n 0 false); congruence.
Qed.

Lemma fold_decimal_nonneg (s : str) (acc : Z) :
  all_digits s -> 0 <= acc ->
  0 <= fold_left (fun a c => 10 * a + digit_value c) s acc.
Proof.
  revert acc; induction s as [|c r IH]; intros acc Hs Hacc; [exact Hacc|].
  apply all_digits_cons in Hs as [Hc Hr].
  pose proof (digit_value_range c Hc).
  cbn [fold_left]; apply IH; [assumption | lia].
Qed.

Lemma decimal_value_nonneg (s : str) : all_digits s -> 0 <= decimal_value s.
Proof. intros H; apply fold_decimal_nonneg; [assumption | lia]. Qed.

Lemma strike_of_digits (lim : nat) (ds : str) :
  all_digits ds -> ds <> [] ->
  strike_of lim ds
  = if exceeds_limit lim (List.length ds) then Return None
    else match float_of_int (decimal_value ds) with
         | Return x => Return (Some (SFdiv prec emax x float_1000))
         | Raise e => Raise OverflowError
         end.
Proof.
  intros Hd Hne; unfold strike_of; rewrite (int_digits lim ds Hd Hne).
  destruct (exceeds_limit lim (List.length ds)); [reflexivity|].
  cbn [bind]; unfold int_truediv_float.
  destruct (float_of_int (decimal_value ds)) as [x|e] eqn:E; [reflexivity|].
  now rewrite (float_of_int_raise _ _ E).
Qed.

Lemma is_leap_century (yy : Z) :
  69 <= yy <= 99 -> is_leap (yy + 1900) = is_leap (2000 + yy).
Proof.
  intros H; unfold is_leap.
  replace ((yy + 1900) mod 4) with ((2000 + yy) mod 4)
    by (Z.div_mod_to_equations; lia).
  destruct ((2000 + yy) mod 4 =? 0); [cbn [andb]|reflexivity].
  destruct (Z.eqb_spec ((yy + 1900) mod 100) 0) as [E|_];
    [exfalso; Z.div_mod_to_equations; lia|].
  destruct (Z.eqb_spec ((2000 + yy) mod 100) 0) as [E|_];
    [exfalso; Z.div_mod_to_equations; lia|].
  reflexivity.
Qed.

(** Which of the two centuries the year is read in makes no difference
    to whether the day exists. *)
Lemma valid_date_century (yy m d : Z) :
  0 <= yy <= 99 ->
  valid_date (two_digit_year yy) m d = valid_date (2000 + yy) m d.
Proof.
  intros H; unfold two_digit_year.
  destruct (Z.leb_spec yy 68); [now rewrite Z.add_comm|].
  unfold valid_date, days_in_month.
  now rewrite is_leap_century by lia.
Qed.

Lemma dec2_range (a b : ascii) :
  is_digit a = true -> is_digit b = true -> 0 <= dec2 a b <= 99.
Proof.
  intros Ha Hb; unfold dec2.
  pose proof (digit_value_range a Ha); pose proof (digit_value_range b Hb).
  lia.
Qed.

Lemma six_digits (a : str) :
  List.length a = 6%nat -> all_digits a ->
  exists y1 y2 m1 m2 d1 d2,
    a = [y1; y2; m1; m2; d1; d2] /\ is_digit y1 = true /\ is_digit y2 = true.
Proof.
  intros Hl Ha.
  destruct a as [|y1 [|y2 [|m1 [|m2 [|d1 [|d2 [|? ?]]]]]]]; try discriminate.
  exists y1, y2, m1, m2, d1, d2; split; [reflexivity|].
  apply all_digits_cons in Ha as [H1 Ha]; apply all_digits_cons in Ha as [H2 _].
  auto.
Qed.

Lemma float_small_is_ratio (k den : Z) :
  0 < k < 2 ^ 53 ->
  float_is_ratio (binary_normalize 53 1024 k 0 false) (k * den) den.
Proof.
  intros [Hk Hlt]; destruct k as [|p|p]; try lia.
  pose proof (digits_bounds p) as [Hlo Hhi].
  assert (Hd : Zpos (digits2_pos p) <= 53).
  { destruct (Z.le_gt_cases (Zpos (digits2_pos p)) 53); [assumption|exfalso].
    assert (2 ^ 53 <= 2 ^ (Zpos (digits2_pos p) - 1))
      by (apply Z.pow_le_mono_r; lia). lia. }
  rewrite round_small by assumption.
  set (d := Zpos (digits2_pos p)) in *.
  assert (0 < 2 ^ (53 - d)) by (apply Z.pow_pos_nonneg; lia).
  unfold float_is_ratio; rewrite Z2Pos.id by lia.
  destruct (Z.leb_spec 0 (d - 53)).
  - replace (53 - d) with 0 by lia; replace (d - 53) with 0 by lia.
    cbn [Z.pow]; ring.
  - replace (- (d - 53)) with (53 - d) by lia; ring.
Qed.

Lemma parse_matched (lim : nat) (t : str) (y1 y2 m1 m2 d1 d2 : ascii)
  (cp ds : str) :
  search t = Some ([y1; y2; m1; m2; d1; d2], cp, ds) ->
  parse_option_ticker lim t
  = (k <- strike_of lim ds ;;
     Return (expiration_spec y1 y2 m1 m2 d1 d2, Some cp, k)).
Proof.
  intros Hs; rewrite parse_option_ticker_eq, Hs.
  pose proof (search_groups _ _ _ _ Hs) as (_ & Ha & _).
  now rewrite (expiration_of_digits lim _ _ _ _ _ _ Ha).
Qed.

Lemma strike_of_in_range (lim : nat) (ds : str) :
  all_digits ds -> ds <> [] ->
  exceeds_limit lim (List.length ds) = false ->
  decimal_value ds < 2 ^ 1024 - 2 ^ 970 ->
  exists x, float_of_int (decimal_value ds) = Return x
            /\ binary_normalize 53 1024 (decimal_value ds) 0 false = x
            /\ strike_of lim ds = Return (Some (SFdiv prec emax x float_1000)).
Proof.
  intros Hd Hne Hlim Hlt.
  destruct (float_of_int_returns (decimal_value ds)) as (x & Hx & Hn).
  { split; [now apply decimal_value_nonneg | assumption]. }
  exists x; split; [assumption|]; split; [assumption|].
  now rewrite strike_of_digits, Hlim, Hx.
Qed.

(** ** The claims *)

(** C6: a ticker with no substring made of six digits, a [C] or [P] and
    one or more digits decodes to the all-absent result; no exception is
    raised. *)
Theorem C6_no_match_all_absent (lim : nat) (t : str) :
  ~ contains_option_code t ->
  parse_option_ticker lim t = Return (None, None, None).
Proof.
  intros H; apply search_None_iff in H.
  now rewrite parse_option_ticker_eq, H.
Qed.

Lemma C6_witness :
  ~ contains_option_code "KYLD"%string
  /\ parse_option_ticker 4300 "KYLD"%string = Return (None, None, None).
Proof.
  assert (H : ~ contains_option_code "KYLD"%string)
    by (apply search_None_iff; reflexivity).
  split; [exact H | exact (C6_no_match_all_absent 4300 _ H)].
Defined.

(** C9: where the ticker holds several option codes, the decoder takes
    the leftmost one, with its whole digit run, and what it returns is
    read off that occurrence: the date is its six digits as a calendar
    date (absent where they are none), the type is its letter, the
    strike is its digit run as a number, divided by 1000.0 (absent where
    the run is over the interpreter's digit limit); the result is that
    of decoding the occurrence alone. *)
Theorem C9_first_match_wins (lim : nat) (t pre d6 cp ds post : str) :
  t = pre ++ d6 ++ cp ++ ds ++ post ->
  option_code d6 cp ds ->
  no_leading_digit post ->
  (forall pre' d6' cp' ds' post',
      t = pre' ++ d6' ++ cp' ++ ds' ++ post' -> option_code d6' cp' ds' ->
      (List.length pre <= List.length pre')%nat) ->
  search t = Some (d6, cp, ds)
  /\ parse_option_ticker lim t = parse_option_ticker lim (d6 ++ cp ++ ds)
  /\ exists y1 y2 m1 m2 d1 d2,
       d6 = [y1; y2; m1; m2; d1; d2]
       /\ let year := if dec2 y1 y2 <=? 68 then dec2 y1 y2 + 2000
                      else dec2 y1 y2 + 1900 in
          let date :=
            if valid_date year (dec2 m1 m2) (dec2 d1 d2)
            then Some (zero_padded 4 year
                       ++ "-"%char :: [m1; m2] ++ "-"%char :: [d1; d2])
            else None in
          parse_option_ticker lim t
          = if exceeds_limit lim (List.length ds)
            then Return (date, Some cp, None)
            else match float_of_int (decimal_value ds) with
                 | Return x =>
                     Return (date, Some cp,
                             Some (SFdiv prec emax x float_1000))
                 | Raise _ => Raise OverflowError
                 end.
Proof.
  intros -> Hoc Hpost Hleft.
  assert (Hs : search (pre ++ d6 ++ cp ++ ds ++ post) = Some (d6, cp, ds)).
  { rewrite search_skip.
    - apply search_here, match_here_complete; assumption.
    - intros p r -> Hr.
      destruct (match_here (r ++ d6 ++ cp ++ ds ++ post))
        as [[[a b] c]|] eqn:Hm; [exfalso|reflexivity].
      apply match_here_sound in Hm as (rest & Heq & Hoc' & _).
      specialize (Hleft p a b c rest).
      rewrite <- app_assoc, Heq in Hleft.
      specialize (Hleft eq_refl Hoc').
      rewrite length_app in Hleft.
      destruct r; [congruence | simpl in Hleft; lia]. }
  split; [exact Hs|].
  assert (Hs' : search (d6 ++ cp ++ ds) = Some (d6, cp, ds)).
  { apply search_here.
    rewrite <- (app_nil_r ds) at 1.
    now apply match_here_complete. }
  split; [now rewrite !parse_option_ticker_eq, Hs, Hs'|].
  destruct Hoc as (Hl & Ha & _ & Hne & Hd).
  destruct (six_digits d6 Hl Ha) as (y1 & y2 & m1 & m2 & d1 & d2 & -> & _).
  exists y1, y2, m1, m2, d1, d2; split; [reflexivity|].
  cbv zeta.
  rewrite (parse_matched lim _ _ _ _ _ _ _ _ _ Hs).
  rewrite strike_of_digits by assumption.
  unfold expiration_spec, two_digit_year.
  destruct (exceeds_limit lim (List.length ds)); [reflexivity|].
  destruct (float_of_int (decimal_value ds)); reflexivity.
Qed.

Lemma C9_witness :
  search "AB251219C00195000X240621P00150000"%string
  = Some (lit "251219", lit "C", lit "00195000")
  /\ parse_option_ticker 4300 "AB251219C00195000X240621P00150000"%string
     = parse_option_ticker 4300 "251219C00195000"%string
  /\ parse_option_ticker 4300 "AB251219C00195000X240621P00150000"%string
     = Return (Some (lit "2025-12-19"), Some (lit "C"),
               Some (S754_finite false 6860952557322240 (-45))).
Proof.
  destruct (C9_first_match_wins 4300
              (lit "AB251219C00195000X240621P00150000") (lit "AB")
              (lit "251219") (lit "C") (lit "00195000")
              (lit "X240621P00150000"))
    as (Hs & Hp & y1 & y2 & m1 & m2 & d1 & d2 & E & Hr).
  - reflexivity.
  - repeat split; [now left | discriminate].
  - reflexivity.
  - intros pre' d6' cp' ds' post' Heq Hoc.
    destruct pre' as [|x [|y pre']]; [exfalso| exfalso |simpl; lia];
      cbn in Heq.
    + apply (occurrence_matches [] d6' cp' ds' post' Hoc).
      now rewrite <- Heq.
    + apply (occurrence_matches [] d6' cp' ds' post' Hoc).
      injection Heq as _ Heq; now rewrite <- Heq.
  - split; [exact Hs|]; split; [exact Hp|].
    injection E as <- <- <- <- <- <-.
    rewrite Hr; vm_compute; reflexivity.
Defined.

(** C4: the classifier on an option type that is [C], [P] or absent:
    the short labels for a negative quantity, [Stock] without a type,
    the long labels for a quantity that is zero or more. *)
Theorem C4_classification (q : number) :
  (lt_zero q = true ->
     classify_holding (mkrow q (Some (lit "C"))) = lit "CC"
     /\ classify_holding (mkrow q (Some (lit "P"))) = lit "CSP")
  /\ classify_holding (mkrow q None) = lit "Stock"
  /\ (ge_zero q = true ->
        classify_holding (mkrow q (Some (lit "C"))) = lit "Long C"
        /\ classify_holding (mkrow q (Some (lit "P"))) = lit "Long P").
Proof.
  unfold classify_holding, classify_short; cbn [Quantity Put_Call notna andb].
  split; [|split].
  - intros ->; split; reflexivity.
  - reflexivity.
  - intros Hge.
    assert (Hlt : lt_zero q = false).
    { destruct q as [z|f]; simpl in *; [lia|].
      destruct f as [[|]|[|]| |[|] m e]; cbv in Hge |- *; congruence. }
    rewrite Hlt; split; reflexivity.
Qed.

Lemma C4_witness :
  classify_holding (mkrow (Int_ (-5)) (Some (lit "C"))) = lit "CC"
  /\ classify_holding (mkrow (Int_ (-3)) (Some (lit "P"))) = lit "CSP"
  /\ classify_holding (mkrow (Int_ 100) None) = lit "Stock"
  /\ classify_holding (mkrow (Int_ 2) (Some (lit "C"))) = lit "Long C"
  /\ classify_holding (mkrow (Int_ 0) (Some (lit "P"))) = lit "Long P".
Proof.
  split; [|split; [|split; [|split]]].
  - apply (C4_classification (Int_ (-5))); reflexivity.
  - apply (C4_classification (Int_ (-3))); reflexivity.
  - apply (C4_classification (Int_ 100)).
  - apply (C4_classification (Int_ 2)); reflexivity.
  - apply (C4_classification (Int_ 0)); reflexivity.
Defined.

(** C3, the claim as stated fails: on digits that are no calendar date
    the date is absent while type and strike are present. *)
Lemma C3_counterexample :
  exists r, parse_option_ticker 4300 "XYZ999999C00010000"%string = Return r
            /\ ~ all_or_nothing r.
Proof.
  eexists; split; [vm_compute; reflexivity|].
  intros [(H & _)|(_ & H & _)]; [now apply H | discriminate].
Qed.

(** C3, amended: the result is all-absent exactly for a ticker without
    an option code; with one, the option type is present, whatever
    becomes of the date and the strike. *)
Theorem C3_all_absent_iff_no_match (lim : nat) (t : str) d ty k :
  parse_option_ticker lim t = Return (d, ty, k) ->
  (~ contains_option_code t -> d = None /\ ty = None /\ k = None)
  /\ (contains_option_code t -> ty <> None)
  /\ (ty = None -> d = None /\ k = None).
Proof.
  intros Hp.
  destruct (search t) as [[[a b] c]|] eqn:Hs.
  - destruct (parse_matched_inv _ _ _ _ _ _ _ _ Hs Hp) as (_ & -> & _).
    pose proof (search_Some_contains _ _ _ _ Hs) as Hc.
    split; [intros Hn; now destruct (Hn Hc)|].
    split; intros; discriminate.
  - rewrite parse_option_ticker_eq, Hs in Hp; injection Hp as <- <- <-.
    apply search_None_iff in Hs.
    split; [auto|split; [contradiction|auto]].
Qed.

Lemma C3_witness :
  parse_option_ticker 4300 "XYZ999999C00010000"%string
  = Return (None, Some (lit "C"),
            Some (S754_finite false 5629499534213120 (-49)))
  /\ (contains_option_code "XYZ999999C00010000"%string ->
      Some (lit "C") <> None).
Proof.
  assert (H : parse_option_ticker 4300 "XYZ999999C00010000"%string
              = Return (None, Some (lit "C"),
                        Some (S754_finite false 5629499534213120 (-49))))
    by (vm_compute; reflexivity).
  split; [exact H|].
  exact (proj1 (proj2 (C3_all_absent_iff_no_match 4300 _ _ _ _ H))).
Defined.

(** C2, the claim as stated fails: the decoder matches its argument as
    it is, so the ticker with spaces has no option code for it. *)
Lemma C2_counterexample :
  parse_option_ticker 4300 "AAPL 240621 P 00150000"%string
  = Return (None, None, None).
Proof. vm_compute; reflexivity. Qed.

Lemma remove_char_absent (c : ascii) (s : str) :
  ~ In c (remove_char c s).
Proof.
  induction s as [|x r IH]; simpl; [tauto|].
  destruct (eqc x c) eqn:E; [exact IH|].
  intros [->|H]; [|now apply IH].
  unfold eqc in E; now rewrite Ascii.eqb_refl in E.
Qed.

Lemma remove_char_id (c : ascii) (s : str) :
  ~ In c s -> remove_char c s = s.
Proof.
  induction s as [|x r IH]; simpl; [reflexivity|]; intros H.
  destruct (eqc x c) eqn:E.
  - unfold eqc in E; apply Ascii.eqb_eq in E; tauto.
  - f_equal; apply IH; tauto.
Qed.

(** C2, amended: the spaces are removed by [process_etf_data] before it
    calls the decoder, which sees a ticker without spaces; a row is
    enriched as the row with the cleaned ticker is, and the ticker
    [AAPL 240621 P 00150000] comes out as 2024-06-21, [P], 150.0. *)
Theorem C2_pipeline_strips_spaces (lim : nat) (t : str) (q : number) :
  ~ In " "%char (clean_ticker t)
  /\ enrich_row lim t q = enrich_row lim (clean_ticker t) q
  /\ (~ In " "%char t -> clean_ticker t = t)
  /\ exists r, enrich_row lim "AAPL 240621 P 00150000"%string q = Return r
       /\ Ticker r = lit "AAPL240621P00150000"
       /\ Expiration r = Some (lit "2024-06-21")
       /\ Put_Call_ r = Some (lit "P")
       /\ exists f, Strike r = Some f /\ float_is_ratio f 150 1.
Proof.
  split; [apply remove_char_absent|].
  split.
  { unfold enrich_row, clean_ticker.
    now rewrite (remove_char_id _ (remove_char _ t) (remove_char_absent _ t)). }
  split; [apply remove_char_id|].
  eexists; split; [vm_compute; reflexivity|].
  cbn [Ticker Expiration Put_Call_ Strike].
  repeat split; eexists; split; [reflexivity|vm_compute; reflexivity].
Qed.




(** C5, the claim as stated fails: with the interpreter's default limit
    of 4300 digits on integer literals, a digit run of 4301 digits makes
    [int] raise [ValueError], which the second [try] turns into an
    absent strike. *)
Lemma C5_counterexample :
  parse_option_ticker 4300 (lit "XYZ999999C" ++ repeat "1"%char 4301)
  = Return (None, Some (lit "C"), None).
Proof. vm_compute; reflexivity. Qed.

(** C5, amended: where the six matched digits are no calendar date, the
    date is absent and the option type is returned; the strike is
    returned with them when the digit run is within the interpreter's
    digit limit and its value is in the range of a float, and is absent
    when the run is over the digit limit. *)
Theorem C5_invalid_date_keeps_type_and_strike (lim : nat) (t : str)
  (y1 y2 m1 m2 d1 d2 : ascii) (cp ds : str) :
  search t = Some ([y1; y2; m1; m2; d1; d2], cp, ds) ->
  valid_date (2000 + dec2 y1 y2) (dec2 m1 m2) (dec2 d1 d2) = false ->
  (cp = lit "C" \/ cp = lit "P")
  /\ (exceeds_limit lim (List.length ds) = true ->
      parse_option_ticker lim t = Return (None, Some cp, None))
  /\ (exceeds_limit lim (List.length ds) = false ->
      decimal_value ds < 2 ^ 1024 - 2 ^ 970 ->
      exists x, float_of_int (decimal_value ds) = Return x
        /\ parse_option_ticker lim t
           = Return (None, Some cp, Some (SFdiv prec emax x float_1000))).
Proof.
  intros Hs Hv.
  pose proof (search_groups _ _ _ _ Hs) as (_ & Ha & Hcp & Hne & Hd).
  assert (He : expiration_spec y1 y2 m1 m2 d1 d2 = None).
  { unfold expiration_spec.
    apply all_digits_cons in Ha as [H1 Ha]; apply all_digits_cons in Ha as [H2 _].
    now rewrite valid_date_century, Hv by now apply dec2_range. }
  rewrite (parse_matched lim _ _ _ _ _ _ _ _ _ Hs), He.
  split; [exact Hcp|]; split.
  - intros Hlim; now rewrite strike_of_digits, Hlim.
  - intros Hlim Hlt.
    destruct (strike_of_in_range lim ds Hd Hne Hlim Hlt) as (x & Hx & _ & ->).
    now exists x.
Qed.

Lemma C5_witness :
  (lit "C" = lit "C" \/ lit "C" = lit "P")
  /\ exists x, float_of_int 10000 = Return x
       /\ parse_option_ticker 4300 "XYZ999999C00010000"%string
          = Return (None, Some (lit "C"), Some (SFdiv prec emax x float_1000))
       /\ float_is_ratio (SFdiv prec emax x float_1000) 10 1.
Proof.
  destruct (C5_invalid_date_keeps_type_and_strike 4300
              "XYZ999999C00010000"%string "9" "9" "9" "9" "9" "9"
              (lit "C") (lit "00010000") eq_refl eq_refl)
    as (Hcp & _ & Hin).
  split; [exact Hcp|].
  destruct (Hin eq_refl eq_refl) as (x & Hx & Hp).
  exists x; split; [exact Hx|]; split; [exact Hp|].
  injection Hx as <-; vm_compute; reflexivity.
Defined.

(** C7, the claim as stated fails: the digit run 9007199254740993000 is
    a multiple of 1000, and the strike is 9007199254740994.0, not
    9007199254740993. *)
Lemma C7_counterexample :
  exists d ty f,
    parse_option_ticker 4300 "X251219C9007199254740993000"%string
    = Return (d, ty, Some f)
    /\ float_is_ratio f 9007199254740994 1
    /\ ~ float_is_ratio f 9007199254740993000 1000.
Proof.
  do 3 eexists; split; [vm_compute; reflexivity|].
  split; [vm_compute; reflexivity|].
  vm_compute; discriminate.
Qed.

(** C7, amended: for a digit run within the interpreter's digit limit
    whose value [n] is in the range of a float, the strike is the float
    quotient of [float(n)] by [1000.0]; it is exactly [n / 1000] where
    [n] is a multiple of 1000 below 2^53, and exactly 0.5 for [n = 500]. *)
Theorem C7_strike_is_run_over_1000 (lim : nat) (t a cp ds : str) :
  search t = Some (a, cp, ds) ->
  exceeds_limit lim (List.length ds) = false ->
  decimal_value ds < 2 ^ 1024 - 2 ^ 970 ->
  exists e x,
    float_of_int (decimal_value ds) = Return x
    /\ parse_option_ticker lim t
       = Return (e, Some cp, Some (SFdiv prec emax x float_1000))
    /\ (decimal_value ds < 2 ^ 53 -> decimal_value ds mod 1000 = 0 ->
        float_is_ratio (SFdiv prec emax x float_1000) (decimal_value ds) 1000)
    /\ (decimal_value ds = 500 ->
        float_is_ratio (SFdiv prec emax x float_1000) 1 2).
Proof.
  intros Hs Hlim Hlt.
  pose proof (search_groups _ _ _ _ Hs) as (Hl & Ha & _ & Hne & Hd).
  destruct (six_digits a Hl Ha) as (y1 & y2 & m1 & m2 & d1 & d2 & -> & _).
  destruct (strike_of_in_range lim ds Hd Hne Hlim Hlt) as (x & Hx & Hn & Hk).
  exists (expiration_spec y1 y2 m1 m2 d1 d2), x.
  split; [exact Hx|]; split.
  { now rewrite (parse_matched lim _ _ _ _ _ _ _ _ _ Hs), Hk. }
  pose proof (decimal_value_nonneg ds Hd) as H0.
  subst x; unfold prec, emax; split.
  - intros H53 Hmod.
    apply Z.mod_divide in Hmod; [|lia]; destruct Hmod as [k Ek].
    destruct (Z.eq_dec k 0) as [->|Hk0].
    + rewrite Ek; reflexivity.
    + rewrite Ek, (Z.mul_comm k 1000), div_1000_exact by lia.
      rewrite (Z.mul_comm 1000 k); apply float_small_is_ratio; lia.
  - intros ->; vm_compute; reflexivity.
Qed.

Lemma C7_witness :
  exists e x,
    float_of_int 195000 = Return x
    /\ parse_option_ticker 4300 "BWXT251219C00195000"%string
       = Return (e, Some (lit "C"), Some (SFdiv prec emax x float_1000))
    /\ float_is_ratio (SFdiv prec emax x float_1000) 195000 1000.
Proof.
  destruct (C7_strike_is_run_over_1000 4300 "BWXT251219C00195000"%string
              (lit "251219") (lit "C") (lit "00195000")
              eq_refl eq_refl eq_refl)
    as (e & x & Hx & Hp & Hexact & _).
  exists e, x; split; [exact Hx|]; split; [exact Hp|].
  apply Hexact; reflexivity.
Defined.

(** C8, the code at the failing input: a digit run of 310 digits, 10^309,
    passes [int] and is too large for a float; the [OverflowError] of
    the division is no [ValueError], and the decoder raises it. *)
Theorem C8_overflow_is_raised :
  parse_option_ticker 4300 (lit "XYZ251219C1" ++ repeat "0"%char 309)
  = Raise OverflowError.
Proof. vm_compute; reflexivity. Qed.

(** C10, the claim as stated fails: with the interpreter's default limit
    of 4300 digits, a run of 4301 digits is matched, [int] raises
    [ValueError] on it, and the strike-absent branch is taken while the
    option type is present. *)
Lemma C10_counterexample :
  parse_option_ticker 4300 (lit "XYZ251219C" ++ repeat "1"%char 4301)
  = Return (Some (lit "2025-12-19"), Some (lit "C"), None).
Proof. vm_compute; reflexivity. Qed.

(** C10, amended: in a result the decoder returns, an absent option type
    comes with an absent strike; on a match the option type is the
    matched [C] or [P], and the strike is absent exactly when the digit
    run is longer than the interpreter's limit on integer literals. *)
Theorem C10_type_and_strike (lim : nat) (t : str) d ty k :
  parse_option_ticker lim t = Return (d, ty, k) ->
  (ty = None -> k = None)
  /\ (forall a cp ds, search t = Some (a, cp, ds) ->
        ty = Some cp /\ (cp = lit "C" \/ cp = lit "P")
        /\ (k = None <-> exceeds_limit lim (List.length ds) = true)).
Proof.
  intros Hp; split.
  - intros ->.
    destruct (search t) as [[[a cp] ds]|] eqn:Hs.
    + now destruct (parse_matched_inv _ _ _ _ _ _ _ _ Hs Hp) as (_ & ? & _).
    + rewrite parse_option_ticker_eq, Hs in Hp; congruence.
  - intros a cp ds Hs.
    destruct (parse_matched_inv _ _ _ _ _ _ _ _ Hs Hp) as (_ & -> & Hk).
    pose proof (search_groups _ _ _ _ Hs) as (_ & _ & Hcp & Hne & Hd).
    split; [reflexivity|]; split; [exact Hcp|].
    rewrite strike_of_digits in Hk by assumption.
    destruct (exceeds_limit lim (List.length ds)).
    + injection Hk as <-; tauto.
    + destruct (float_of_int (decimal_value ds)); [|discriminate].
      injection Hk as <-; split; discriminate.
Qed.

Lemma C10_witness :
  (Some (lit "C") = None -> Some (S754_finite false 6860952557322240 (-45)) = None)
  /\ (forall a cp ds,
        search "BWXT251219C00195000"%string = Some (a, cp, ds) ->
        Some (lit "C") = Some cp /\ (cp = lit "C" \/ cp = lit "P")
        /\ (Some (S754_finite false 6860952557322240 (-45)) = None
            <-> exceeds_limit 4300 (List.length ds) = true)).
Proof.
  apply (C10_type_and_strike 4300 "BWXT251219C00195000"%string
           (Some (lit "2025-12-19"))).
  vm_compute; reflexivity.
Defined.

(** The decoder raises exactly on a matched digit run that passes [int]
    and whose value is out of the range of a float, and what it raises
    is [OverflowError]; no [ValueError] leaves it. *)
Theorem parse_option_ticker_raises_iff (lim : nat) (t : str) (e : exn) :
  parse_option_ticker lim t = Raise e
  <-> e = OverflowError
      /\ exists a cp ds,
           search t = Some (a, cp, ds)
           /\ exceeds_limit lim (List.length ds) = false
           /\ 2 ^ 1024 - 2 ^ 970 <= decimal_value ds.
Proof.
  split.
  - intros Hp.
    destruct (search t) as [[[a cp] ds]|] eqn:Hs;
      [|rewrite parse_option_ticker_eq, Hs in Hp; discriminate].
    pose proof (search_groups _ _ _ _ Hs) as (Hl & Ha & _ & Hne & Hd).
    destruct (six_digits a Hl Ha) as (y1 & y2 & m1 & m2 & d1 & d2 & -> & _).
    rewrite (parse_matched lim _ _ _ _ _ _ _ _ _ Hs) in Hp.
    rewrite strike_of_digits in Hp by assumption.
    destruct (exceeds_limit lim (List.length ds)) eqn:Hlim; [discriminate|].
    destruct (Z.lt_ge_cases (decimal_value ds) (2 ^ 1024 - 2 ^ 970)) as [Hlt|Hge].
    + destruct (float_of_int_returns (decimal_value ds)) as (x & Hx & _).
      { split; [now apply decimal_value_nonneg | assumption]. }
      rewrite Hx in Hp; discriminate.
    + rewrite (float_of_int_overflow _ Hge) in Hp.
      injection Hp as <-; split; [reflexivity|].
      now exists [y1; y2; m1; m2; d1; d2], cp, ds.
  - intros (-> & a & cp & ds & Hs & Hlim & Hge).
    pose proof (search_groups _ _ _ _ Hs) as (Hl & Ha & _ & Hne & Hd).
    destruct (six_digits a Hl Ha) as (y1 & y2 & m1 & m2 & d1 & d2 & -> & _).
    rewrite (parse_matched lim _ _ _ _ _ _ _ _ _ Hs).
    now rewrite strike_of_digits, Hlim, (float_of_int_overflow _ Hge).
Qed.

(** ** Beyond the claims: the rest of the pipeline and the weeklies *)

(** The expiration date is present exactly when the six matched digits
    are a calendar date: a month 01..12 and a day of that month, 29
    February in leap years only. *)
Theorem expiration_iff_calendar_date (lim : nat) (t : str)
  (y1 y2 m1 m2 d1 d2 : ascii) (cp ds : str) d ty k :
  search t = Some ([y1; y2; m1; m2; d1; d2], cp, ds) ->
  parse_option_ticker lim t = Return (d, ty, k) ->
  d <> None
  <-> valid_date (2000 + dec2 y1 y2) (dec2 m1 m2) (dec2 d1 d2) = true.
Proof.
  intros Hs Hp.
  pose proof (search_groups _ _ _ _ Hs) as (_ & Ha & _).
  apply all_digits_cons in Ha as [H1 Ha]; apply all_digits_cons in Ha as [H2 _].
  rewrite (parse_matched lim _ _ _ _ _ _ _ _ _ Hs) in Hp.
  destruct (strike_of lim ds) as [k'|]; [|discriminate].
  injection Hp as <- _ _; unfold expiration_spec.
  rewrite valid_date_century by now apply dec2_range.
  destruct (valid_date _ _ _); split; congruence.
Qed.

Lemma expiration_iff_calendar_date_witness :
  Some (lit "2024-02-29") <> None
  <-> valid_date (2000 + dec2 "2" "4") (dec2 "0" "2") (dec2 "2" "9") = true.
Proof.
  apply (expiration_iff_calendar_date 4300 (lit "AAPL240229C00150000")
           "2" "4" "0" "2" "2" "9" (lit "C") (lit "00150000")
           (Some (lit "2024-02-29")) (Some (lit "C"))
           (Some (S754_finite false 5277655813324800 (-45))));
    vm_compute; reflexivity.
Defined.

Lemma match_here_nondigit (c : ascii) (s : str) :
  is_digit c = false -> match_here (c :: s) = None.
Proof.
  intros Hc; unfold match_here.
  destruct s as [|d2 [|d3 [|d4 [|d5 [|d6 [|cp r]]]]]]; try reflexivity.
  cbn [forallb]; now rewrite Hc.
Qed.

(** What precedes the option code does not count as long as it holds no
    digit: a ticker with such a root decodes as the ticker without it. *)
Theorem root_without_digits_ignored (lim : nat) (root t : str) :
  forallb (fun c => negb (is_digit c)) root = true ->
  parse_option_ticker lim (root ++ t) = parse_option_ticker lim t.
Proof.
  intros Hr.
  assert (Hs : search (root ++ t) = search t).
  { apply search_skip; intros p r -> Hne.
    destruct r as [|c r]; [congruence|].
    rewrite forallb_app in Hr; apply andb_true_iff in Hr as [_ Hr].
    cbn [forallb] in Hr; apply andb_true_iff in Hr as [Hc _].
    apply negb_true_iff in Hc; now apply match_here_nondigit. }
  now rewrite !parse_option_ticker_eq, Hs.
Qed.

Lemma root_without_digits_ignored_witness :
  parse_option_ticker 4300 (lit "BWXT" ++ lit "251219C00195000")
  = parse_option_ticker 4300 (lit "251219C00195000").
Proof.
  apply (root_without_digits_ignored 4300 (lit "BWXT")
           (lit "251219C00195000")).
  reflexivity.
Defined.

(** ** More facts on binary64 rounding: the quotient by 1000.0 *)

Lemma shr_record_of_loc_m (m : Z) (l : location) :
  shr_m (shr_record_of_loc m l) = m.
Proof. destruct l as [|[| |]]; reflexivity. Qed.

Lemma round_second_stage (s : bool) (m e : Z) :
  2 ^ 52 <= m <= 2 ^ 53 -> -1074 <= e <= 970 ->
  exists m' e',
    (let '(mrs, e2) := shr_fexp 53 1024 m e loc_Exact in
     match shr_m mrs with
     | Z0 => S754_zero s
     | Zpos p => if e2 <=? 1024 - 53 then S754_finite s p e2
                 else S754_infinity s
     | Zneg _ => S754_nan
     end) = S754_finite s m' e'.
Proof.
  intros Hm He.
  destruct (Z.ltb_spec m (2 ^ 53)) as [Hlt|Hge].
  - destruct m as [|q|q]; try lia.
    rewrite shr_fexp_53; [|lia|apply digits_unique; lia].
    cbn [shr_m]; destruct (Z.leb_spec e (1024 - 53)); [|lia].
    now exists q, e.
  - assert (E : m = 2 ^ 53) by lia; subst m.
    unfold shr_fexp, fexp, emin.
    change (Zdigits2 (2 ^ 53)) with 54.
    replace (Z.max (54 + e - 53) (3 - 1024 - 53) - e) with 1 by lia.
    cbn [shr_record_of_loc shr iter_pos]; change (2 ^ 53) with (Zpos (2 ^ 53)).
    cbn [shr_1 shr_m Pos.pow].
    destruct (Z.leb_spec (e + 1) (1024 - 53)); [|lia].
    eexists _, _; reflexivity.
Qed.

Lemma round_aux_finite (s : bool) (q : positive) (e : Z) (l : location) :
  Zpos (digits2_pos q) = 53 \/ Zpos (digits2_pos q) = 54 ->
  -1074 <= e <= 969 ->
  exists m e', binary_round_aux 53 1024 s (Zpos q) e l = S754_finite s m e'.
Proof.
  intros Hd He; pose proof (digits_bounds q) as [Hlo Hhi].
  unfold binary_round_aux.
  destruct (shr_fexp 53 1024 (Zpos q) e l) as [mrs e1] eqn:E1.
  assert (H1 : 2 ^ 52 <= shr_m mrs < 2 ^ 53 /\ e <= e1 <= e + 1).
  { unfold shr_fexp, fexp, emin, Zdigits2 in E1.
    destruct Hd as [Hd|Hd]; rewrite Hd in *.
    - replace (Z.max (53 + e - 53) (3 - 1024 - 53) - e) with 0 in E1 by lia.
      cbn [shr] in E1; injection E1 as <- <-.
      rewrite shr_record_of_loc_m; change (53 - 1) with 52 in Hlo; lia.
    - replace (Z.max (54 + e - 53) (3 - 1024 - 53) - e) with 1 in E1 by lia.
      cbn [shr iter_pos] in E1; injection E1 as <- <-.
      rewrite shr_1_m, shr_record_of_loc_m by (rewrite shr_record_of_loc_m; lia).
      change (54 - 1) with 53 in Hlo.
      change (2 ^ 54) with (2 ^ 53 * 2) in Hhi.
      change (2 ^ 53) with (2 ^ 52 * 2) in Hlo.
      split; [split|lia].
      + apply Z.div_le_lower_bound; lia.
      + apply Z.div_lt_upper_bound; lia. }
  destruct H1 as [Hm He1].
  apply round_second_stage; [|lia].
  destruct (round_nearest_even_cases (shr_m mrs) (loc_of_shr_record mrs)); lia.
Qed.

Lemma float_of_int_shape (n : Z) (x : float) :
  0 < n -> float_of_int n = Return x ->
  exists mx ex, x = S754_finite false mx ex
                /\ Zpos (digits2_pos mx) = 53 /\ -52 <= ex <= 971.
Proof.
  intros Hn; unfold float_of_int, Py.prec, Py.emax.
  destruct n as [|p|p]; try lia.
  destruct (Z.le_gt_cases (Zpos (digits2_pos p)) 53) as [Hd|Hd].
  - rewrite round_small by assumption; intros Hx.
    pose proof (digits_bounds p) as [Hlo Hhi].
    assert (0 < 2 ^ (53 - Zpos (digits2_pos p)))
      by (apply Z.pow_pos_nonneg; lia).
    assert (0 < Zpos p * 2 ^ (53 - Zpos (digits2_pos p)))
      by (apply Z.mul_pos_pos; lia).
    exists (Z.to_pos (Zpos p * 2 ^ (53 - Zpos (digits2_pos p)))),
           (Zpos (digits2_pos p) - 53).
    split; [congruence|]; split; [|lia].
    apply digits_unique; rewrite Z2Pos.id by lia.
    apply digits_scaled; lia.
  - rewrite normalize_large by lia.
    destruct (round_large p ltac:(lia)) as (l & _ & _ & ->); cbv zeta.
    pose proof (top_bits_bounds p ltac:(lia)) as Hb.
    set (k := Zpos (digits2_pos p) - 53) in *.
    destruct (round_nearest_even_cases (Zpos p / 2 ^ k) l) as [E|E];
      rewrite E; clear E.
    + destruct (Z.ltb_spec (Zpos p / 2 ^ k) (2 ^ 53)); [|lia].
      destruct (Z.leb_spec k 971); [|discriminate].
      intros Hx; exists (Z.to_pos (Zpos p / 2 ^ k)), k.
      split; [congruence|]; split; [|lia].
      apply digits_unique; rewrite Z2Pos.id by lia; lia.
    + destruct (Z.ltb_spec (Zpos p / 2 ^ k + 1) (2 ^ 53)).
      * destruct (Z.leb_spec k 971); [|discriminate].
        intros Hx; exists (Z.to_pos (Zpos p / 2 ^ k + 1)), k.
        split; [congruence|]; split; [|lia].
        apply digits_unique; rewrite Z2Pos.id by lia; lia.
      * destruct (Z.leb_spec (k + 1) 971); [|discriminate].
        intros Hx; exists (Z.to_pos (2 ^ 52)), (k + 1).
        split; [congruence|]; split; [reflexivity|lia].
Qed.

Lemma div_eucl_pair (a b : Z) : Z.div_eucl a b = (a / b, a mod b).
Proof. unfold Z.div, Z.modulo; now destruct (Z.div_eucl a b). Qed.

Lemma div_1000_finite (mx : positive) (ex : Z) :
  Zpos (digits2_pos mx) = 53 -> -52 <= ex <= 971 ->
  exists m e,
    SFdiv 53 1024 (S754_finite false mx ex) float_1000 = S754_finite false m e.
Proof.
  intros Hd He; pose proof (digits_bounds mx) as [Hlo Hhi].
  rewrite Hd in Hlo, Hhi; change (53 - 1) with 52 in Hlo.
  unfold float_1000, SFdiv, SFdiv_core_binary, fexp, emin; cbn [xorb].
  change (Zdigits2 8796093022208000) with 53.
  cbn [Zdigits2]; rewrite Hd.
  replace (Z.min (Z.max (53 + ex - (53 + -43) - 53) (3 - 1024 - 53))
                 (ex - -43)) with (ex - 10) by lia.
  replace (ex - -43 - (ex - 10)) with 53 by lia.
  rewrite Z.shiftl_mul_pow2, div_eucl_pair by lia.
  set (q := Zpos mx * 2 ^ 53 / 8796093022208000).
  assert (Hq : 2 ^ 52 <= q < 2 ^ 54).
  { unfold q; split.
    - apply Z.div_le_lower_bound; lia.
    - apply Z.div_lt_upper_bound; lia. }
  destruct q as [|pq|pq] eqn:Eq; try lia.
  apply round_aux_finite; [|lia].
  destruct (Z.lt_ge_cases (Zpos pq) (2 ^ 53)).
  - left; apply digits_unique; lia.
  - right; apply digits_unique; lia.
Qed.

Lemma strike_finite_nonneg (lim : nat) (ds : str) (f : float) :
  all_digits ds -> ds <> [] ->
  strike_of lim ds = Return (Some f) -> is_finite_nonneg f = true.
Proof.
  intros Hd Hne; rewrite strike_of_digits by assumption.
  destruct (exceeds_limit lim (List.length ds)); [discriminate|].
  destruct (float_of_int (decimal_value ds)) as [x|] eqn:Hx; [|discriminate].
  intros [= <-]; unfold Py.prec, Py.emax.
  pose proof (decimal_value_nonneg ds Hd) as H0.
  destruct (Z.eq_dec (decimal_value ds) 0) as [E|E].
  - rewrite E in Hx; injection Hx as <-; reflexivity.
  - destruct (float_of_int_shape (decimal_value ds) x ltac:(lia) Hx) as (mx & ex & -> & Hdx & Hex).
    destruct (div_1000_finite mx ex Hdx Hex) as (m & e & ->); reflexivity.
Qed.

(** A strike the decoder returns is a finite float that is zero or
    more: never NaN, never infinite, never negative. *)
Theorem strike_is_finite_nonneg (lim : nat) (t : str) d ty (f : float) :
  parse_option_ticker lim t = Return (d, ty, Some f) ->
  is_finite_nonneg f = true.
Proof.
  intros Hp.
  destruct (search t) as [[[a cp] ds]|] eqn:Hs;
    [|rewrite parse_option_ticker_eq, Hs in Hp; discriminate].
  destruct (parse_matched_inv _ _ _ _ _ _ _ _ Hs Hp) as (_ & _ & Hk).
  pose proof (search_groups _ _ _ _ Hs) as (_ & _ & _ & Hne & Hd).
  exact (strike_finite_nonneg lim ds f Hd Hne Hk).
Qed.

(** ** Facts on the classifier and the row pipeline *)

Lemma classify_holding_cases (q : number) (o : option str) :
  classify_holding (mkrow q o)
  = match o with
    | None => lit "Stock"
    | Some t =>
        if lt_zero q && str_eqb t (lit "C") then lit "CC"
        else if lt_zero q && str_eqb t (lit "P") then lit "CSP"
        else lit "Long " ++ t
    end.
Proof.
  unfold classify_holding, classify_short; cbn [Quantity Put_Call notna].
  destruct o as [t|]; [|reflexivity]; cbn [andb].
  destruct (lt_zero q); [|reflexivity]; cbn [andb].
  destruct (str_eqb t (lit "C")); [reflexivity|].
  destruct (str_eqb t (lit "P")); reflexivity.
Qed.

(** The label is [Stock] exactly for a row without option type, whatever
    the type's text and the quantity. *)
Theorem classify_holding_stock_iff (r : row) :
  classify_holding r = lit "Stock" <-> Put_Call r = None.
Proof.
  destruct r as [q o]; rewrite classify_holding_cases; cbn [Put_Call].
  destruct o as [t|]; [|tauto].
  split; [|discriminate].
  destruct (lt_zero q && str_eqb t (lit "C")); [discriminate|].
  destruct (lt_zero q && str_eqb t (lit "P")); discriminate.
Qed.

Lemma ge_zero_fillna (q : number) :
  ge_zero (fillna_zero q) = negb (lt_zero (fillna_zero q)).
Proof.
  destruct q as [z|f]; cbn.
  - destruct (Z.leb_spec 0 z), (Z.ltb_spec z 0); try reflexivity; lia.
  - destruct f as [[|]|[|]| |[|] m e]; reflexivity.
Qed.

Lemma enrich_row_labels (lim : nat) (t : str) (q : number)
  (r : enriched) :
  enrich_row lim t (fillna_zero q) = Return r ->
  In (Classification r) labels
  /\ (Classification r = lit "Stock" <-> ~ contains_option_code (clean_ticker t))
  /\ (In (Classification r) [lit "CC"; lit "CSP"] <->
      contains_option_code (clean_ticker t) /\ lt_zero (fillna_zero q) = true)
  /\ (In (Classification r) [lit "Long C"; lit "Long P"] <->
      contains_option_code (clean_ticker t) /\ ge_zero (fillna_zero q) = true).
Proof.
  unfold enrich_row.
  destruct (parse_option_ticker lim (clean_ticker t)) as [[[d ty] k]|] eqn:Hp;
    [|discriminate].
  cbn [bind]; intros [= <-]; cbn [Classification].
  rewrite ge_zero_fillna, classify_holding_cases.
  destruct (search (clean_ticker t)) as [[[a cp] ds]|] eqn:Hs.
  - pose proof (search_Some_contains _ _ _ _ Hs) as Hc.
    destruct (parse_matched_inv _ _ _ _ _ _ _ _ Hs Hp) as (_ & -> & _).
    pose proof (search_groups _ _ _ _ Hs) as (_ & _ & Hcp & _).
    destruct (lt_zero (fillna_zero q)); destruct Hcp as [-> | ->]; cbn;
      intuition (try discriminate; try congruence).
  - rewrite parse_option_ticker_eq, Hs in Hp; injection Hp as <- <- <-.
    apply search_None_iff in Hs.
    cbn; intuition (try discriminate; try congruence).
Qed.

(** A row of the table, its quantity with NaN turned into 0, gets one of
    the five labels: [Stock] exactly when its cleaned ticker holds no
    option code, a short label exactly when it holds one and the
    quantity is negative, a long label exactly when it holds one and the
    quantity is zero or more. *)
Theorem enrich_row_classification (lim : nat) (t : str) (q : number)
  (r : enriched) :
  enrich_row lim t (fillna_zero q) = Return r ->
  In (Classification r) labels
  /\ (Classification r = lit "Stock" <-> ~ contains_option_code (clean_ticker t))
  /\ (In (Classification r) [lit "CC"; lit "CSP"] <->
      contains_option_code (clean_ticker t) /\ lt_zero (fillna_zero q) = true)
  /\ (In (Classification r) [lit "Long C"; lit "Long P"] <->
      contains_option_code (clean_ticker t) /\ ge_zero (fillna_zero q) = true).
Proof. exact (enrich_row_labels lim t q r). Qed.

Lemma filter_map_comm {A : Type} (p : A -> bool) (f : A -> A) (l : list A) :
  (forall x, p (f x) = p x) -> filter p (map f l) = map f (filter p l).
Proof.
  intros H; induction l as [|x l IH]; [reflexivity|].
  cbn [map filter]; rewrite H; destruct (p x); cbn [map]; now rewrite IH.
Qed.

Lemma parse_raise_overflow (lim : nat) (t : str) (e : exn) :
  parse_option_ticker lim t = Raise e -> e = OverflowError.
Proof.
  intros Hp.
  destruct (search t) as [[[a cp] ds]|] eqn:Hs;
    [|rewrite parse_option_ticker_eq, Hs in Hp; discriminate].
  pose proof (search_groups _ _ _ _ Hs) as (Hl & Ha & _ & Hne & Hd).
  destruct (six_digits a Hl Ha) as (y1 & y2 & m1 & m2 & d1 & d2 & -> & _).
  rewrite (parse_matched lim _ _ _ _ _ _ _ _ _ Hs) in Hp.
  rewrite strike_of_digits in Hp by assumption.
  destruct (exceeds_limit lim (List.length ds)); [discriminate|].
  destruct (float_of_int (decimal_value ds)); [discriminate|].
  now injection Hp.
Qed.

Lemma enrich_row_raise (lim : nat) (t : str) (q : number) (e : exn) :
  enrich_row lim t q = Raise e
  <-> parse_option_ticker lim (clean_ticker t) = Raise e.
Proof.
  unfold enrich_row.
  destruct (parse_option_ticker lim (clean_ticker t)) as [[[d ty] k]|e'];
    cbn [bind]; split; congruence.
Qed.

Lemma apply_raise {A B : Type} (f : A -> result B) (l : list A) (e : exn) :
  apply_ f l = Raise e -> exists a, In a l /\ f a = Raise e.
Proof.
  induction l as [|a l IH]; cbn [apply_]; [discriminate|].
  destruct (f a) as [b|e'] eqn:Ha; cbn [bind].
  - destruct (apply_ f l) as [bs|e'']; cbn [bind]; [discriminate|].
    intros [= ->]; destruct (IH eq_refl) as (a' & Hin & Ha').
    exists a'; split; [now right | assumption].
  - intros [= ->]; exists a; split; [now left | assumption].
Qed.

Lemma apply_raise_one {A B : Type} (f : A -> result B) (l : list A) (e : exn) :
  (forall a e', f a = Raise e' -> e' = e) ->
  (exists a, In a l /\ f a = Raise e) -> apply_ f l = Raise e.
Proof.
  intros Hone (a & Hin & Ha).
  induction l as [|x l IH]; [destruct Hin|]; cbn [apply_].
  destruct (f x) as [b|e'] eqn:Hx; cbn [bind].
  - destruct Hin as [->|Hin]; [congruence|].
    now rewrite (IH Hin).
  - now rewrite (Hone _ _ Hx).
Qed.

Lemma apply_enrich (lim : nat) (l : list holding) :
  (parsed_results <-
     apply_ (fun h => parse_option_ticker lim (h_Ticker h))
       (map (fun h => mkholding (clean_ticker (h_Ticker h)) (h_Quantity h)
                        (h_Description h)) l) ;;
   match parsed_results with
   | [] => Raise ValueError
   | _ :: _ =>
       Return (map (fun '(h, (expiration, put_call, strike)) =>
                      mkenriched (h_Ticker h) expiration put_call strike
                        (classify_holding (mkrow (h_Quantity h) put_call)))
                 (combine
                    (map (fun h => mkholding (clean_ticker (h_Ticker h))
                                     (h_Quantity h) (h_Description h)) l)
                    parsed_results))
   end)
  = match l with
    | [] => Raise ValueError
    | _ :: _ => apply_ (fun h => enrich_row lim (h_Ticker h) (h_Quantity h)) l
    end.
Proof.
  destruct l as [|h0 l0]; [reflexivity|].
  revert h0; induction l0 as [|h1 l IH]; intros h0.
  - cbn [map apply_ h_Ticker]; unfold enrich_row.
    destruct (parse_option_ticker lim (clean_ticker (h_Ticker h0)))
      as [[[d ty] k]|e]; reflexivity.
  - specialize (IH h1).
    cbn [map apply_ h_Ticker] in *; unfold enrich_row at 1.
    destruct (parse_option_ticker lim (clean_ticker (h_Ticker h0)))
      as [[[d ty] k]|e]; [|reflexivity].
    cbn [bind] in *.
    destruct (parse_option_ticker lim (clean_ticker (h_Ticker h1)))
      as [[[d1 ty1] k1]|e1] eqn:E1; cbn [bind] in *.
    + destruct (apply_ _ (map _ l)) as [ps|e2]; cbn [bind] in *.
      * rewrite <- IH; reflexivity.
      * now rewrite <- IH.
    + now rewrite <- IH.
Qed.

Lemma process_rows_eq (lim : nat) (df : list holding) :
  process_rows lim df
  = match filter (fun h => negb (is_cash_line (h_Description h))) df with
    | [] => Raise ValueError
    | kept =>
        apply_ (fun h => enrich_row lim (h_Ticker h) (fillna_zero (h_Quantity h)))
               kept
    end.
Proof.
  unfold process_rows.
  rewrite !filter_map_comm by reflexivity.
  rewrite apply_enrich.
  destruct (filter (fun h => negb (is_cash_line (h_Description h))) df)
    as [|h l]; [reflexivity|].
  cbn [map apply_ h_Ticker h_Quantity].
  destruct (enrich_row lim (h_Ticker h) (fillna_zero (h_Quantity h)));
    [|reflexivity].
  cbn [bind]; f_equal.
  induction l as [|x l IH]; [reflexivity|].
  cbn [map apply_ h_Ticker h_Quantity]; now rewrite IH.
Qed.

(** The table-wide steps amount to enriching, row by row and in order,
    the lines that are no cash lines; with no such line the run fails. *)
Theorem process_rows_rowwise (lim : nat) (df : list holding) :
  process_rows lim df
  = match filter (fun h => negb (is_cash_line (h_Description h))) df with
    | [] => Raise ValueError
    | kept =>
        apply_ (fun h => enrich_row lim (h_Ticker h) (fillna_zero (h_Quantity h)))
               kept
    end.
Proof. exact (process_rows_eq lim df). Qed.

(** The run over the table fails in two cases only: with [ValueError]
    when every line is a cash line or there is none, and with
    [OverflowError] when the decoder raises on the ticker of a line that
    is no cash line.  A cash line never makes the decoder run. *)
Theorem process_rows_raises_iff (lim : nat) (df : list holding) (e : exn) :
  process_rows lim df = Raise e
  <-> (e = ValueError
       /\ forall h, In h df -> is_cash_line (h_Description h) = true)
      \/ (e = OverflowError
          /\ exists h, In h df /\ is_cash_line (h_Description h) = false
               /\ parse_option_ticker lim (clean_ticker (h_Ticker h))
                  = Raise OverflowError).
Proof.
  rewrite process_rows_eq.
  destruct (filter (fun h => negb (is_cash_line (h_Description h))) df)
    as [|h0 l] eqn:Ef.
  - split.
    + intros [= <-]; left; split; [reflexivity|].
      intros h Hin; destruct (is_cash_line (h_Description h)) eqn:Ec;
        [reflexivity|exfalso].
      assert (Hk : In h []) by
        (rewrite <- Ef; apply filter_In; split; [assumption | now rewrite Ec]).
      destruct Hk.
    + intros [(-> & _)|(_ & h & Hin & Hc & _)]; [reflexivity|exfalso].
      assert (Hk : In h []) by
        (rewrite <- Ef; apply filter_In; split; [assumption | now rewrite Hc]).
      destruct Hk.
  - assert (H0 : In h0 df /\ is_cash_line (h_Description h0) = false).
    { assert (Hk : In h0 (h0 :: l)) by now left.
      rewrite <- Ef in Hk; apply filter_In in Hk as [Hin Hc].
      now apply negb_true_iff in Hc. }
    split.
    + intros H; right; apply apply_raise in H as (h & Hin & Hh).
      rewrite <- Ef in Hin.
      apply filter_In in Hin as [Hin Hc]; apply negb_true_iff in Hc.
      apply enrich_row_raise in Hh.
      pose proof (parse_raise_overflow _ _ _ Hh) as ->.
      split; [reflexivity|]; now exists h.
    + intros [(-> & Hall)|(-> & h & Hin & Hc & Hh)].
      * destruct H0 as [Hin Hc]; rewrite (Hall _ Hin) in Hc; discriminate.
      * apply apply_raise_one.
        -- intros a e' Ha; apply enrich_row_raise in Ha.
           now apply parse_raise_overflow in Ha.
        -- exists h; split.
           ++ rewrite <- Ef; apply filter_In; split;
                [assumption | now rewrite Hc].
           ++ now apply enrich_row_raise.
Qed.

(** ** Facts on substrings and the cash filter *)

Lemma is_prefix_app {A : Type} (eqb : A -> A -> bool) (p s : list A) :
  (forall x, eqb x x = true) -> is_prefix eqb p (p ++ s) = true.
Proof.
  intros Hr; induction p as [|x p IH]; [reflexivity|].
  cbn; now rewrite Hr, IH.
Qed.

Lemma occurs_in_app {A : Type} (eqb : A -> A -> bool) (a p b : list A) :
  (forall x, eqb x x = true) -> occurs_in eqb p (a ++ p ++ b) = true.
Proof.
  intros Hr; induction a as [|x a IH]; cbn [app].
  - destruct (p ++ b) eqn:E; cbn [occurs_in];
      rewrite <- E, is_prefix_app by assumption; reflexivity.
  - cbn [occurs_in]; rewrite IH; apply orb_true_r.
Qed.

Lemma upper_app (a b : str) : upper (a ++ b) = upper a ++ upper b.
Proof. apply flat_map_app. Qed.

(** A description in which a cash keyword occurs, in whatever mix of
    upper and lower case, is a cash line. *)
Theorem cash_keyword_any_case (description pre w post kw : str) :
  In kw cash_keywords -> upper w = codes kw ->
  description = pre ++ w ++ post ->
  is_cash_line description = true.
Proof.
  intros Hkw Hw ->; unfold is_cash_line.
  apply existsb_exists; exists kw; split; [assumption|].
  rewrite !upper_app, Hw; apply occurs_in_app, Z.eqb_refl.
Qed.

Lemma cash_keyword_any_case_witness :
  is_cash_line (lit "US Treasury Bill 4.25%") = true.
Proof.
  apply (cash_keyword_any_case _ (lit "US ") (lit "Treasury")
           (lit " Bill 4.25%") (lit "TREASURY")).
  - left; reflexivity.
  - reflexivity.
  - reflexivity.
Defined.

(** ** Facts on the columns *)

Lemma is_in_In (c : str) (l : list str) : is_in c l = true <-> In c l.
Proof.
  unfold is_in; rewrite existsb_exists; split.
  - intros (x & Hx & E); apply str_eqb_eq in E; now subst.
  - intros H; exists c; split; [assumption | now apply str_eqb_eq].
Qed.

Lemma is_in_set_column (c name : str) (columns : list str) :
  is_in c (set_column name columns) = is_in c columns || str_eqb c name.
Proof.
  unfold set_column; destruct (is_in name columns) eqn:E.
  - destruct (str_eqb c name) eqn:Ec; [|now rewrite orb_false_r].
    apply str_eqb_eq in Ec; subst; now rewrite E.
  - unfold is_in; rewrite existsb_app; cbn; now rewrite orb_false_r.
Qed.

Lemma filter_set_column (p : str -> bool) (name : str) (columns : list str) :
  p name = false -> filter p (set_column name columns) = filter p columns.
Proof.
  intros Hp; unfold set_column; destruct (is_in name columns); [reflexivity|].
  rewrite filter_app; cbn; rewrite Hp; apply app_nil_r.
Qed.

(** After the enrichment of a table that has a [Ticker] column, the
    output columns are the six leading ones in their fixed order, then
    the other columns of the input in the input's order. *)
Theorem final_cols_of_enriched (columns : list str) :
  is_in (lit "Ticker") columns = true ->
  final_cols (enriched_columns columns)
  = target_start_cols
    ++ filter (fun col => negb (is_in col target_start_cols)) columns.
Proof.
  intros Ht; unfold final_cols, enriched_columns.
  rewrite !filter_set_column by reflexivity.
  f_equal.
  unfold target_start_cols; cbn [map filter].
  rewrite !is_in_set_column, Ht.
  cbn; rewrite ?orb_true_r; reflexivity.
Qed.

Lemma final_cols_of_enriched_witness :
  final_cols (enriched_columns
                (map lit ["Ticker"; "Description"; "Quantity"; "Weight"]%string))
  = map lit ["ETF"; "Ticker"; "Put/Call"; "Strike"; "Expiration";
             "Classification"; "Description"; "Quantity"; "Weight"]%string.
Proof.
  apply (final_cols_of_enriched
           (map lit ["Ticker"; "Description"; "Quantity"; "Weight"]%string)).
  reflexivity.
Defined.

Lemma filter_partition_perm {A : Type} (p : A -> bool) (l : list A) :
  Permutation (filter p l ++ filter (fun x => negb (p x)) l) l.
Proof.
  induction l as [|x l IH]; [constructor|].
  cbn [filter]; destruct (p x); cbn [negb app].
  - now constructor.
  - symmetry; apply Permutation_cons_app; now symmetry.
Qed.

Lemma target_start_cols_NoDup : NoDup target_start_cols.
Proof.
  unfold target_start_cols; cbn [map].
  repeat (constructor; [cbn; intros H;
    repeat (destruct H as [H|H]; [discriminate H|]); exact H|]).
  constructor.
Qed.

(** The final order is a rearrangement of the columns: with distinct
    column names, none is lost and none repeated. *)
Theorem final_cols_permutation (columns : list str) :
  NoDup columns -> Permutation (final_cols columns) columns.
Proof.
  intros Hnd; unfold final_cols.
  apply Permutation_trans
    with (filter (fun col => is_in col target_start_cols) columns
          ++ filter (fun col => negb (is_in col target_start_cols)) columns);
    [|apply filter_partition_perm].
  apply Permutation_app_tail.
  apply NoDup_Permutation.
  - apply NoDup_filter, target_start_cols_NoDup.
  - now apply NoDup_filter.
  - intros c; rewrite !filter_In, !is_in_In; tauto.
Qed.

Lemma final_cols_permutation_witness :
  Permutation
    (final_cols (map lit ["Weight"; "Strike"; "Ticker"; "ETF"]%string))
    (map lit ["Weight"; "Strike"; "Ticker"; "ETF"]%string).
Proof.
  apply (final_cols_permutation
           (map lit ["Weight"; "Strike"; "Ticker"; "ETF"]%string)).
  repeat (constructor; [cbn; intros H;
    repeat (destruct H as [H|H]; [discriminate H|]); exact H|]).
  constructor.
Defined.

(** ** Facts on paths and [str.replace] *)

Lemma eqc_refl (c : ascii) : eqc c c = true.
Proof. apply Ascii.eqb_refl. Qed.

Lemma eqc_neq (a b : ascii) : a <> b -> eqc a b = false.
Proof. intros H; apply Ascii.eqb_neq; exact H. Qed.

Lemma basename_fold_no_slash (b acc : str) :
  ~ In "/" b ->
  fold_left (fun acc c => if eqc c "/" then [] else acc ++ [c]) b acc
  = acc ++ b.
Proof.
  revert acc; induction b as [|c b IH]; intros acc Hb; cbn [fold_left].
  - now rewrite app_nil_r.
  - rewrite eqc_neq by (intros ->; apply Hb; now left).
    rewrite IH by (intros H; apply Hb; now right).
    now rewrite <- app_assoc.
Qed.

Lemma basename_after_slash (a b : str) :
  ~ In "/" b -> basename (a ++ "/" :: b) = b.
Proof.
  intros Hb; unfold basename; rewrite fold_left_app; cbn [fold_left].
  rewrite eqc_refl; now apply basename_fold_no_slash.
Qed.

Lemma replace_from_skip (old new pre s : str) :
  replace_from old new (List.length pre) (pre ++ s) = replace_from old new 0 s.
Proof. induction pre as [|c pre IH]; [reflexivity | exact IH]. Qed.

Lemma replace_from_copy (x : ascii) (old new a b : str) :
  ~ In x a ->
  replace_from (x :: old) new 0 (a ++ b)
  = a ++ replace_from (x :: old) new 0 b.
Proof.
  induction a as [|c a IH]; intros Ha; [reflexivity|].
  cbn [app replace_from is_prefix].
  rewrite eqc_neq by (intros ->; apply Ha; now left).
  cbn [andb]; rewrite IH by (intros H; apply Ha; now right).
  reflexivity.
Qed.

Lemma replace_from_here (x : ascii) (old new s : str) :
  replace_from (x :: old) new 0 ((x :: old) ++ s)
  = new ++ replace_from (x :: old) new 0 s.
Proof.
  pose proof (is_prefix_app eqc (x :: old) s eqc_refl) as Hp.
  cbn [app replace_from] in *; rewrite Hp.
  replace (List.length (x :: old) - 1)%nat with (List.length old)
    by (cbn [List.length]; lia).
  now rewrite replace_from_skip.
Qed.

Lemma replace_delete_prefix (x : ascii) (old s : str) :
  ~ In x s -> replace (x :: old) [] ((x :: old) ++ s) = s.
Proof.
  intros Hs; unfold replace; rewrite replace_from_here; cbn [app].
  rewrite <- (app_nil_r s) at 1.
  rewrite replace_from_copy by assumption.
  cbn [replace_from]; apply app_nil_r.
Qed.

Lemma replace_delete_suffix (x : ascii) (old s : str) :
  ~ In x s -> replace (x :: old) [] (s ++ x :: old) = s.
Proof.
  intros Hs; unfold replace; rewrite replace_from_copy by assumption.
  pose proof (replace_from_here x old [] []) as H.
  rewrite app_nil_r in H; rewrite H.
  cbn [app replace_from]; apply app_nil_r.
Qed.

(** The date is read back from the path of the raw file as it was
    written into it, and the archive is named after it: for a date text
    without [/], [r] and [.]. *)
Lemma date_str_round_trip (s : str) :
  ~ In "/" s -> ~ In "r" s -> ~ In "." s ->
  date_str_of (raw_weeklys_path s) = s
  /\ archive_path (date_str_of (raw_weeklys_path s))
     = lit "data/weeklys_enriched_" ++ s ++ lit ".csv".
Proof.
  intros Hslash Hr Hdot.
  assert (Hcsv : forall c, In c (lit ".csv") -> c <> "/" /\ c <> "r").
  { intros c H; cbn in H.
    repeat (destruct H as [<-|H]; [split; discriminate|]); destruct H. }
  assert (P : raw_weeklys_path s
              = lit "data" ++ "/" :: (lit "raw_weeklys_" ++ s ++ lit ".csv"))
    by reflexivity.
  assert (B : basename (raw_weeklys_path s)
              = lit "raw_weeklys_" ++ s ++ lit ".csv").
  { rewrite P; apply basename_after_slash.
    rewrite !in_app_iff; intros [H|[H|H]].
    - cbn in H; repeat (destruct H as [H|H]; [discriminate H|]); exact H.
    - now apply Hslash.
    - now destruct (Hcsv _ H). }
  assert (R1 : replace (lit "raw_weeklys_") [] (lit "raw_weeklys_" ++ s ++ lit ".csv")
               = s ++ lit ".csv").
  { apply (replace_delete_prefix "r" (lit "aw_weeklys_") (s ++ lit ".csv")).
    rewrite in_app_iff; intros [H|H]; [now apply Hr | now destruct (Hcsv _ H)]. }
  assert (R2 : replace (lit ".csv") [] (s ++ lit ".csv") = s)
    by (apply (replace_delete_suffix "." (lit "csv") s); assumption).
  assert (E : date_str_of (raw_weeklys_path s) = s)
    by (unfold date_str_of; now rewrite B, R1, R2).
  split; [exact E|]; rewrite E; reflexivity.
Qed.

Lemma zero_padded_digits (w : nat) (n : Z) (c : ascii) :
  In c (zero_padded w n) -> is_digit c = true.
Proof.
  revert n; induction w as [|w IH]; intros n; cbn [zero_padded];
    [intros []|].
  rewrite in_app_iff; intros [H|[<-|[]]]; [now apply (IH (n / 10))|].
  pose proof (Z.mod_pos_bound n 10 ltac:(lia)) as Hb.
  assert (Hc : n mod 10 = 0 \/ n mod 10 = 1 \/ n mod 10 = 2 \/ n mod 10 = 3
               \/ n mod 10 = 4 \/ n mod 10 = 5 \/ n mod 10 = 6
               \/ n mod 10 = 7 \/ n mod 10 = 8 \/ n mod 10 = 9) by lia.
  repeat (destruct Hc as [-> | Hc]; [reflexivity|]); now rewrite Hc.
Qed.

Lemma strftime_chars (d : datetime) (c : ascii) :
  In c (strftime_Y_m_d d) -> is_digit c = true \/ c = "-".
Proof.
  unfold strftime_Y_m_d; rewrite in_app_iff; cbn [In]; rewrite in_app_iff.
  cbn [In]; intros [H|[H|[H|[H|H]]]]; eauto using zero_padded_digits.
Qed.

(** For every date, the date text [download_weeklys] puts into the name
    of the raw file is the one the main block reads back from it, and
    the archive is written to [data/weeklys_enriched_<date>.csv]. *)
Theorem raw_file_date_round_trip (d : datetime) :
  date_str_of (raw_weeklys_path (strftime_Y_m_d d)) = strftime_Y_m_d d
  /\ archive_path (date_str_of (raw_weeklys_path (strftime_Y_m_d d)))
     = lit "data/weeklys_enriched_" ++ strftime_Y_m_d d ++ lit ".csv".
Proof.
  apply date_str_round_trip; intros H;
    destruct (strftime_chars d _ H) as [E|E]; discriminate E.
Qed.

(** ** Facts on [parse_csv_to_data] *)

Lemma ustr_eqb_eq (a b : ustr) : ustr_eqb a b = true <-> a = b.
Proof.
  unfold ustr_eqb; destruct (list_eq_dec Z.eq_dec a b); split; congruence.
Qed.

Lemma dict_set_In (k : ustr) (v : str) (d : pydict) :
  In (k, v) (dict_set k v d).
Proof.
  induction d as [|[k' v'] d IH]; cbn [dict_set]; [now left|].
  destruct (ustr_eqb k k'); [now left | now right].
Qed.

Lemma dict_set_In_inv (k k' : ustr) (v v' : str) (d : pydict) :
  In (k', v') (dict_set k v d) -> (k', v') = (k, v) \/ In (k', v') d.
Proof.
  induction d as [|[k0 v0] d IH]; cbn [dict_set].
  - intros [H|[]]; auto.
  - destruct (ustr_eqb k k0).
    + intros [H|H]; [auto | right; now right].
    + intros [H|H]; [right; now left|].
      destruct (IH H); [auto | right; now right].
Qed.

Lemma dict_set_keys (k : ustr) (v : str) (d : pydict) :
  map fst (dict_set k v d)
  = if existsb (ustr_eqb k) (map fst d) then map fst d else map fst d ++ [k].
Proof.
  induction d as [|[k0 v0] d IH]; cbn [dict_set map fst existsb];
    [reflexivity|].
  destruct (ustr_eqb k k0) eqn:E; cbn [orb map fst].
  - apply ustr_eqb_eq in E; now subst.
  - rewrite IH; now destruct (existsb (ustr_eqb k) (map fst d)).
Qed.

Lemma dict_set_NoDup (k : ustr) (v : str) (d : pydict) :
  NoDup (map fst d) -> NoDup (map fst (dict_set k v d)).
Proof.
  intros H; rewrite dict_set_keys.
  destruct (existsb (ustr_eqb k) (map fst d)) eqn:E; [assumption|].
  apply NoDup_app; [assumption | repeat constructor; intros [] |].
  intros x Hx [<-|[]].
  assert (existsb (ustr_eqb k) (map fst d) = true); [|congruence].
  apply existsb_exists; exists k; split; [assumption | now apply ustr_eqb_eq].
Qed.

Lemma parse_csv_snoc (rows : list (list str)) (row : list str) :
  parse_csv_to_data (rows ++ [row]) = csv_step (parse_csv_to_data rows) row.
Proof. unfold parse_csv_to_data; now rewrite fold_left_app. Qed.

Lemma fold_csv_NoDup (rows : list (list str)) (d : pydict) :
  NoDup (map fst d) -> NoDup (map fst (fold_left csv_step rows d)).
Proof.
  revert d; induction rows as [|row rows IH]; intros d Hd; [assumption|].
  cbn [fold_left]; apply IH; unfold csv_step.
  destruct (csv_row_item row) as [[k v]|]; [now apply dict_set_NoDup|assumption].
Qed.

Lemma fold_csv_In (rows : list (list str)) (d : pydict) (k : ustr) (v : str) :
  In (k, v) (fold_left csv_step rows d) ->
  In (k, v) d \/ exists row, In row rows /\ csv_row_item row = Some (k, v).
Proof.
  revert d; induction rows as [|row rows IH]; intros d; cbn [fold_left];
    [auto|].
  intros H; destruct (IH _ H) as [Hd|(r & Hr & E)].
  - unfold csv_step in Hd.
    destruct (csv_row_item row) as [[k' v']|] eqn:E; [|auto].
    destruct (dict_set_In_inv _ _ _ _ _ Hd) as [[= -> ->]|Hd']; [|auto].
    right; exists row; split; [now left | assumption].
  - right; exists r; split; [now right | assumption].
Qed.

Lemma parse_csv_keys_NoDup (rows : list (list str)) :
  NoDup (map fst (parse_csv_to_data rows)).
Proof. apply fold_csv_NoDup; constructor. Qed.

(** Every entry of the map comes from a row of at least two cells: its
    key is the first cell stripped and in upper case, not empty and
    holding neither [TICKER] nor [AVAILABLE WEEKLYS]; its value is the
    second cell stripped, and does not look like a date.  No key is
    there twice. *)
Theorem parse_csv_entries (rows : list (list str)) :
  NoDup (map fst (parse_csv_to_data rows))
  /\ forall k v, In (k, v) (parse_csv_to_data rows) ->
       k <> []
       /\ occurs_in Z.eqb (codes (lit "TICKER")) k = false
       /\ occurs_in Z.eqb (codes (lit "AVAILABLE WEEKLYS")) k = false
       /\ looks_like_date v = false
       /\ exists c0 c1 rest,
            In (c0 :: c1 :: rest) rows
            /\ k = upper (strip c0) /\ v = strip c1.
Proof.
  split; [apply parse_csv_keys_NoDup|].
  intros k v H; apply fold_csv_In in H as [[]|(row & Hin & E)].
  unfold csv_row_item in E.
  destruct row as [|c0 [|c1 rest]]; try discriminate.
  destruct (upper (strip c0)) as [|x u] eqn:Eu; [discriminate|].
  cbn [orb] in E.
  destruct (occurs_in Z.eqb (codes (lit "AVAILABLE WEEKLYS")) (x :: u)) eqn:E1;
    [discriminate|].
  destruct (occurs_in Z.eqb (codes (lit "TICKER")) (x :: u)) eqn:E2;
    [discriminate|].
  cbn [orb] in E.
  destruct (looks_like_date (strip c1)) eqn:E3; [discriminate|].
  injection E as <- <-.
  repeat split; try assumption; try discriminate.
  exists c0, c1, rest; rewrite Eu; auto.
Qed.

(** A row that is stored decides the entry of its key: after it, the
    map holds its value for the key and no other, and the entries of the
    other keys are those from before. *)
Theorem parse_csv_last_row_wins (rows : list (list str)) (row : list str)
  (k : ustr) (v : str) :
  csv_row_item row = Some (k, v) ->
  (forall v', In (k, v') (parse_csv_to_data (rows ++ [row])) <-> v' = v)
  /\ (forall k' v', k' <> k ->
        In (k', v') (parse_csv_to_data (rows ++ [row]))
        <-> In (k', v') (parse_csv_to_data rows)).
Proof.
  intros E; rewrite parse_csv_snoc; unfold csv_step; rewrite E.
  pose proof (dict_set_NoDup k v _ (parse_csv_keys_NoDup rows)) as Hnd.
  split.
  - intros v'; split; [|intros ->; apply dict_set_In].
    intros H; pose proof (dict_set_In k v (parse_csv_to_data rows)) as H0.
    revert Hnd H H0; generalize (dict_set k v (parse_csv_to_data rows)).
    induction p as [|[k0 v0] p IH]; cbn [map fst]; [intros _ []|].
    intros Hnd [H|H] [H0|H0]; inversion Hnd; subst.
    + congruence.
    + injection H as -> ->. exfalso; apply H3.
      change k with (fst (k, v)); now apply in_map.
    + injection H0 as -> ->. exfalso; apply H3.
      change k with (fst (k, v')); now apply in_map.
    + now apply IH.
  - intros k' v' Hk; split.
    + intros H; destruct (dict_set_In_inv _ _ _ _ _ H) as [[= -> ->]|H'];
        [congruence | assumption].
    + generalize (parse_csv_to_data rows).
      induction p as [|[k0 v0] p IH]; cbn [dict_set]; [intros []|].
      destruct (ustr_eqb k k0) eqn:E0.
      * apply ustr_eqb_eq in E0; subst k0.
        intros [[= -> ->]|H]; [congruence | now right].
      * intros [H|H]; [now left | right; now apply IH].
Qed.

Lemma enrich_row_classification_witness :
  exists r,
    enrich_row 4300 (lit "AAPL 240621 P 00150000") (fillna_zero (Int_ (-3)))
    = Return r
    /\ Classification r = lit "CSP"
    /\ In (Classification r) labels.
Proof.
  eexists; split; [vm_compute; reflexivity|].
  split; [reflexivity|].
  apply (enrich_row_classification 4300 (lit "AAPL 240621 P 00150000")
           (Int_ (-3))).
  vm_compute; reflexivity.
Defined.

Lemma strike_is_finite_nonneg_witness :
  is_finite_nonneg (S754_finite false 6860952557322240 (-45)) = true.
Proof.
  apply (strike_is_finite_nonneg 4300 (lit "BWXT251219C00195000")
           (Some (lit "2025-12-19")) (Some (lit "C"))).
  vm_compute; reflexivity.
Defined.

Lemma parse_csv_last_row_wins_witness :
  (forall v',
      In (codes (lit "AAPL"), v')
         (parse_csv_to_data
            ([[lit "aapl"; lit "Apple"]; [lit "MSFT"; lit "Microsoft"]]
             ++ [[lit " AAPL "; lit " Apple Inc "]]))
      <-> v' = lit "Apple Inc")
  /\ (forall k' v', k' <> codes (lit "AAPL") ->
        In (k', v')
           (parse_csv_to_data
              ([[lit "aapl"; lit "Apple"]; [lit "MSFT"; lit "Microsoft"]]
               ++ [[lit " AAPL "; lit " Apple Inc "]]))
        <-> In (k', v')
              (parse_csv_to_data
                 [[lit "aapl"; lit "Apple"]; [lit "MSFT"; lit "Microsoft"]])).
Proof.
  apply (parse_csv_last_row_wins
           [[lit "aapl"; lit "Apple"]; [lit "MSFT"; lit "Microsoft"]]
           [lit " AAPL "; lit " Apple Inc "]).
  reflexivity.
Defined.

Lemma apply_return {A B : Type} (f : A -> result B) (l : list A)
  (out : list B) :
  apply_ f l = Return out -> Forall2 (fun a b => f a = Return b) l out.
Proof.
  revert out; induction l as [|a l IH]; intros out; cbn [apply_].
  - intros [= <-]; constructor.
  - destruct (f a) as [b|e] eqn:Ha; cbn [bind]; [|discriminate].
    destruct (apply_ f l) as [bs|e]; cbn [bind]; [|discriminate].
    intros [= <-]; constructor; [assumption | now apply IH].
Qed.

Lemma enrich_row_ticker (lim : nat) (t : str) (q : number) (r : enriched) :
  enrich_row lim t q = Return r -> Ticker r = clean_ticker t.
Proof.
  unfold enrich_row.
  destruct (parse_option_ticker lim (clean_ticker t)) as [[[d ty] k]|];
    cbn [bind]; [|discriminate].
  now intros [= <-].
Qed.

(** Where the run over the table returns, its output has one row for
    each line that is no cash line, in the order of the input; each
    carries the ticker of its line without spaces and one of the five
    labels. *)
Theorem process_rows_output (lim : nat) (df : list holding)
  (out : list enriched) :
  process_rows lim df = Return out ->
  map Ticker out
  = map (fun h => clean_ticker (h_Ticker h))
        (filter (fun h => negb (is_cash_line (h_Description h))) df)
  /\ Forall (fun r => ~ In " "%char (Ticker r) /\ In (Classification r) labels)
            out.
Proof.
  rewrite process_rows_eq.
  destruct (filter (fun h => negb (is_cash_line (h_Description h))) df)
    as [|h0 l0] eqn:Ef; [discriminate|].
  generalize (h0 :: l0); clear Ef h0 l0; intros l H.
  apply apply_return in H.
  induction H as [|h r l out Hr _ IH]; [split; constructor|].
  destruct IH as [IHt IHf]; split.
  - cbn [map]; now rewrite IHt, (enrich_row_ticker _ _ _ _ Hr).
  - constructor; [|assumption]; split.
    + rewrite (enrich_row_ticker _ _ _ _ Hr); apply remove_char_absent.
    + now destruct (enrich_row_labels lim _ _ _ Hr).
Qed.

Lemma process_rows_output_witness :
  exists out,
    process_rows 4300
      [mkholding (lit "CASH") (Int_ 1000) (lit "Cash & Other");
       mkholding (lit "AAPL 240621 P 00150000") (Float_ S754_nan)
                 (lit "AAPL Put")]
    = Return out
    /\ map Ticker out = [lit "AAPL240621P00150000"]
    /\ Forall (fun r => ~ In " "%char (Ticker r)
                        /\ In (Classification r) labels) out.
Proof.
  eexists; split; [vm_compute; reflexivity|].
  apply (process_rows_output 4300
           [mkholding (lit "CASH") (Int_ 1000) (lit "Cash & Other");
            mkholding (lit "AAPL 240621 P 00150000") (Float_ S754_nan)
                      (lit "AAPL Put")]).
  vm_compute; reflexivity.
Defined.
